(** * Boots: a shallow embedding of the bootstrap-script orchestrator

    The development follows the class [Boots] of [src/Boots.ts] and the
    file that declares [BootsScript], [BootsScriptResult] and
    [isBootsScript]. [src/Boots.ts] holds two revisions of the class; the
    one modelled is the later, documented one, whose loader falls back on
    [baseUrl] and whose scan knows the flag [--boots] only.

    JavaScript values are an inductive type; a [throw] is the [None] of an
    option; the fields of a [Boots] instance are a record threaded through
    every method; what the subscriber of the returned observable is sent is
    a list of events. *)

From Stdlib Require Import List String Ascii Bool Arith Lia.
Import ListNotations.
Open Scope string_scope.
Open Scope list_scope.

Set Warnings "-register-all".

(** ** JavaScript values *)

Module Js.

(** The values the program tells apart: [undefined], [null], booleans,
    strings, functions, plain objects, and the TypeError the engine raises
    (numbers, arrays and the other kinds of object are left out). A function
    is known by what a call with no argument does: it returns a promise,
    returns a value that has no [then] method, or throws. A promise is known
    by how it settles. Functions, strings and errors carry none of the
    properties this program reads. *)
Inductive Value : Type :=
| VUndefined
| VNull
| VBool (b : bool)
| VStr (s : string)
| VFun (body : Call)
| VObj (fields : list (string * Value))
| VTypeError
with Call : Type :=
| ReturnsPromise (p : Settlement)
| ReturnsNonThenable
| ThrowsSync (e : Value)
with Settlement : Type :=
| Fulfilled (v : Value)
| Rejected (e : Value)
| Pending.

(** A computation that may throw: [None] is the throw. *)
Definition Throwing (A : Type) : Type := option A.

Definition bind {A B : Type} (c : Throwing A) (k : A -> Throwing B) : Throwing B :=
  match c with
  | Some a => k a
  | None => None
  end.

Fixpoint assoc (k : string) (fields : list (string * Value)) : Value :=
  match fields with
  | [] => VUndefined
  | (k', v) :: rest => if String.eqb k k' then v else assoc k rest
  end.

(** [o.k]: reading a property of [undefined] or [null] throws a TypeError;
    a missing property reads as [undefined]. *)
Definition get (o : Value) (k : string) : Throwing Value :=
  match o with
  | VUndefined | VNull => None
  | VObj fields => Some (assoc k fields)
  | _ => Some VUndefined
  end.

(** [typeof v === 'function'] *)
Definition is_function (v : Value) : bool :=
  match v with
  | VFun _ => true
  | _ => false
  end.

(** ToBoolean, as applied by [if] and by the conditional operator. *)
Definition truthy (v : Value) : bool :=
  match v with
  | VUndefined | VNull => false
  | VBool b => b
  | VStr s => negb (String.eqb s "")
  | VFun _ | VObj _ | VTypeError => true
  end.

(** [a && b], where evaluating [b] may throw. *)
Definition and_then (a : Value) (b : Throwing Value) : Throwing Value :=
  if truthy a then b else Some a.

End Js.

Import Js.

Notation "x <- c ;; k" := (Js.bind c (fun x => k))
  (at level 61, c at next level, right associativity).

(** ** BootsScript.ts *)

(** [{success, error, scriptName}] as an object literal. *)
Definition BootsScriptResult (success : bool) (error : Value) (scriptName : string) : Value :=
  VObj [("success", VBool success); ("error", error); ("scriptName", VStr scriptName)].

(** [{bootsScriptName, run}] as an object literal. *)
Definition BootsScript (bootsScriptName : string) (run : Call) : Value :=
  VObj [("bootsScriptName", VStr bootsScriptName); ("run", VFun run)].

(** [(typeof o.run === 'function') && o.bootsScriptName] *)
Definition isBootsScript (o : Value) : Throwing Value :=
  r <- get o "run" ;;
  and_then (VBool (is_function r)) (get o "bootsScriptName").

(** ** The command line *)

Definition commandlineFlag : string := "--boots".

(** [s[0] !== '-'] is false exactly when the first character is a dash; the
    empty string has no first character. *)
Definition first_is_dash (s : string) : bool :=
  match s with
  | String c _ => Ascii.eqb c "-"%char
  | EmptyString => false
  end.

(** The [while] loop of [_loadScriptPaths]; it makes at most
    [array.length] turns, which is the fuel it is given. *)
Fixpoint scan (fuel : nat) (array : list string) (searching : nat)
         (scriptPaths : list string) : list string :=
  match fuel with
  | O => scriptPaths
  | S fuel' =>
      match nth_error array searching with
      | None => scriptPaths
      | Some tok =>
          if first_is_dash tok then scriptPaths
          else scan fuel' array (S searching) (scriptPaths ++ [tok])
      end
  end.

(** [process.argv.forEach((value, index, array) => ...)], the elements
    still to visit being [todo]. *)
Fixpoint forEach_arg (array : list string) (index : nat) (todo : list string)
         (scriptPaths : list string) : list string :=
  match todo with
  | [] => scriptPaths
  | value :: todo' =>
      forEach_arg array (S index) todo'
        (if String.eqb value commandlineFlag
         then scan (List.length array) array (index + 1) scriptPaths
         else scriptPaths)
  end.

Definition _loadScriptPaths (argv : list string) : list string :=
  forEach_arg argv 0 argv [].

(** The scan as the specification words it: the tokens after an occurrence
    of the flag, up to the next token that starts with a dash. *)
Fixpoint up_to_dash (args : list string) : list string :=
  match args with
  | [] => []
  | a :: rest => if first_is_dash a then [] else a :: up_to_dash rest
  end.

Fixpoint tokens_after_flag (args : list string) : list string :=
  match args with
  | [] => []
  | a :: rest =>
      (if String.eqb a commandlineFlag then up_to_dash rest else [])
        ++ tokens_after_flag rest
  end.

(** ** What the program takes from its host *)

(** Node and the language give the program its argument vector, its working
    directory, [require], [path.join], [JSON.stringify] and the conversion
    of a value to a string inside a template literal. They are not code of
    this repository: the program is modelled over any of them. *)
Record Host : Type := {
  argv : list string;
  cwd : string;
  require : string -> Throwing Value;
  path_join : string -> string -> string;
  JSON_stringify : list string -> string;
  ToString : Value -> string
}.

(** ** Boots.ts *)

Record BootsOptions : Type := {
  opt_baseUrl : option string;
  opt_forceSync : option bool
}.

(** The fields of a [Boots] instance. *)
Record Boots : Type := {
  scriptPaths : list string;
  bootsScripts : list Value;
  baseUrl : string;
  errors : list string;
  ok : bool
}.

Record LoadModulesResult : Type := {
  result_ok : bool;
  cantResolve : option (list string);
  wrongType : option (list string)
}.

(** The locals of [_loadModules] while its [forEach] runs, with the list of
    the paths handed to [require] so far (kept for the proofs only). *)
Record Loading : Type := {
  result : LoadModulesResult;
  scripts : list Value;
  required : list string
}.

(** What an observer of the returned observable is sent, with the calls of
    [run] among them (kept for the proofs only). *)
Inductive Event : Type :=
| Called (task : Value)
| Next (value : Value)
| Complete
| Error (message : string).

(** The two observables [go] can return: [throwError(message)], and the one
    [_runScripts] builds, which reads [this.bootsScripts] when subscribed. *)
Inductive Observable : Type :=
| throwError (message : string)
| runScripts.

(** The promise chain that [reduce] accumulates. *)
Inductive Chain : Type :=
| ChainFulfilled (chainResults : list Value)
| ChainRejected (errorResult : Value)
| ChainPending.

(** [r ? r.push(x) : r = [x]] on an optional array (an array is truthy,
    empty or not). *)
Definition push_or_define (r : option (list string)) (x : string) : option (list string) :=
  match r with
  | Some l => Some (l ++ [x])
  | None => Some [x]
  end.

Section Program.

Variable host : Host.

(** [new Boots(options)] *)
Definition new_Boots (options : option BootsOptions) : Boots :=
  {| scriptPaths := [];
     bootsScripts := [];
     baseUrl :=
       match options with
       | Some {| opt_baseUrl := Some b |} => if String.eqb b "" then cwd host else b
       | _ => cwd host
       end;
     errors := [];
     ok := true |}.

(** [require(p).default] *)
Definition require_default (p : string) : Throwing Value :=
  m <- require host p ;;
  get m "default".

(** The inner [try]/[catch] of the callback: the path as the rest of the
    callback sees it (the parameter is reassigned in the handler), the value
    loaded unless the second [require] threw too, and the paths required. *)
Definition load (base scriptPath : string) : string * Throwing Value * list string :=
  match require_default scriptPath with
  | Some bootsScript => (scriptPath, Some bootsScript, [scriptPath])
  | None =>
      let scriptPath' := path_join host base scriptPath in
      (scriptPath', require_default scriptPath', [scriptPath; scriptPath'])
  end.

Definition record_wrongType (r : LoadModulesResult) (p : string) : LoadModulesResult :=
  {| result_ok := false;
     cantResolve := cantResolve r;
     wrongType := push_or_define (wrongType r) p |}.

Definition record_cantResolve (r : LoadModulesResult) (p : string) : LoadModulesResult :=
  {| result_ok := false;
     cantResolve := push_or_define (cantResolve r) p;
     wrongType := wrongType r |}.

(** The callback of [scriptPaths.forEach] in [_loadModules]. *)
Definition loadModule (base : string) (st : Loading) (scriptPath : string) : Loading :=
  let '(scriptPath, loaded, calls) := load base scriptPath in
  let checked :=
    bootsScript <- loaded ;;
    verdict <- isBootsScript bootsScript ;;
    Some (bootsScript, truthy verdict) in
  match checked with
  | Some (bootsScript, true) =>
      {| result := result st;
         scripts := scripts st ++ [bootsScript];
         required := required st ++ calls |}
  | Some (_, false) =>
      {| result := record_wrongType (result st) scriptPath;
         scripts := scripts st;
         required := required st ++ calls |}
  | None =>
      {| result := record_cantResolve (result st) scriptPath;
         scripts := scripts st;
         required := required st ++ calls |}
  end.

Definition loading0 (self : Boots) : Loading :=
  {| result := {| result_ok := true; cantResolve := None; wrongType := None |};
     scripts := bootsScripts self;
     required := [] |}.

(** [this._loadModules(scriptPaths)] *)
Definition _loadModules (self : Boots) (paths : list string) : Loading :=
  fold_left (loadModule (baseUrl self)) paths (loading0 self).

Definition set_bootsScripts (self : Boots) (l : list Value) : Boots :=
  {| scriptPaths := scriptPaths self; bootsScripts := l; baseUrl := baseUrl self;
     errors := errors self; ok := ok self |}.

Definition set_scriptPaths (self : Boots) (l : list string) : Boots :=
  {| scriptPaths := l; bootsScripts := bootsScripts self; baseUrl := baseUrl self;
     errors := errors self; ok := ok self |}.

Definition set_ok (self : Boots) (b : bool) : Boots :=
  {| scriptPaths := scriptPaths self; bootsScripts := bootsScripts self;
     baseUrl := baseUrl self; errors := errors self; ok := b |}.

Definition push_error (self : Boots) (e : string) : Boots :=
  {| scriptPaths := scriptPaths self; bootsScripts := bootsScripts self;
     baseUrl := baseUrl self; errors := errors self ++ [e]; ok := ok self |}.

Definition no_paths_message : string :=
  "Boots Error: No script paths were specified.".

Definition load_failed_message : string :=
  "Boots Error: At least one error occurred while attempting to load the BootsScript modules. Use Boots.logErrors() to view more information.".

Definition cantResolve_message (l : list string) : string :=
  ("Could not resolve the following paths: " ++ JSON_stringify host l)%string.

Definition wrongType_message (l : list string) : string :=
  ("The following given BootsScript modules had no default export that was an instance of BootsScript: "
     ++ JSON_stringify host l)%string.

Definition push_if_defined (f : list string -> string) (r : option (list string))
           (self : Boots) : Boots :=
  match r with
  | Some l => push_error self (f l)
  | None => self
  end.

(** [go()]: the observable returned, the instance afterwards and the paths
    handed to [require] on the way. *)
Definition go (self : Boots) : Observable * Boots * list string :=
  let self := set_scriptPaths self (_loadScriptPaths (argv host)) in
  if Nat.ltb (List.length (scriptPaths self)) 1 then
    (throwError no_paths_message, set_ok self false, [])
  else
    let st := _loadModules self (scriptPaths self) in
    let self := set_bootsScripts self (scripts st) in
    let checkModules := result st in
    if negb (result_ok checkModules) then
      let self := set_ok self false in
      let self := push_if_defined cantResolve_message (cantResolve checkModules) self in
      let self := push_if_defined wrongType_message (wrongType checkModules) self in
      (throwError load_failed_message, self, required st)
    else
      (runScripts, self, required st).

(** [logErrors()]: the lines written to the console. *)
Definition logErrors (self : Boots) : list string :=
  map (fun error => ("Boots Error: " ++ error)%string) (errors self).

(** The callback of [this.bootsScripts.reduce], on the chain and on the
    events sent so far. A fulfilled chain calls [currentTask.run()]; what it
    returns decides how the chain goes on; a rejected chain is rethrown by
    both [catch] handlers, a pending one stays pending. *)
Definition reducer (acc : list Event * Chain) (currentTask : Value) : list Event * Chain :=
  let '(sent, promiseChain) := acc in
  match promiseChain with
  | ChainFulfilled chainResults =>
      match get currentTask "run" with
      | Some (VFun body) =>
          let sent := sent ++ [Called currentTask] in
          match body with
          | ReturnsPromise (Fulfilled currentResult) =>
              (sent ++ [Next currentResult], ChainFulfilled (chainResults ++ [currentResult]))
          | ReturnsPromise (Rejected errorResult) => (sent, ChainRejected errorResult)
          | ReturnsPromise Pending => (sent, ChainPending)
          | ReturnsNonThenable => (sent, ChainRejected VTypeError)
          | ThrowsSync e => (sent, ChainRejected e)
          end
      | _ => (sent, ChainRejected VTypeError)
      end
  | ChainRejected errorResult => (sent, ChainRejected errorResult)
  | ChainPending => (sent, ChainPending)
  end.

(** The template literal of the last [catch]; reading a property of
    [undefined] or [null] throws. *)
Definition script_error_message (errorResult : Value) : Throwing string :=
  scriptName <- get errorResult "scriptName" ;;
  error <- get errorResult "error" ;;
  Some ("Boots Error: Script " ++ ToString host scriptName
          ++ " reported the following error: " ++ ToString host error)%string.

(** Subscribing to the observable of [_runScripts]. *)
Definition _runScripts (self : Boots) : list Event * Boots :=
  let '(sent, chain) := fold_left reducer (bootsScripts self) ([], ChainFulfilled []) in
  match chain with
  | ChainFulfilled _ => (sent ++ [Complete], self)
  | ChainRejected errorResult =>
      let self := set_ok self false in
      match script_error_message errorResult with
      | Some message => (sent ++ [Error message], self)
      | None => (sent, self)
      end
  | ChainPending => (sent, self)
  end.

(** [observable.subscribe(observer)]: what the observer is sent, and the
    instance afterwards. *)
Definition subscribe (o : Observable) (self : Boots) : list Event * Boots :=
  match o with
  | throwError message => ([Error message], self)
  | runScripts => _runScripts self
  end.

(** [boots.go().subscribe(observer)] *)
Definition go_subscribe (self : Boots) : list Event * Boots * list string :=
  let '(o, self, calls) := go self in
  let '(sent, self) := subscribe o self in
  (sent, self, calls).

(** The operations a holder of an instance can apply to it. *)
Inductive Op : Type :=
| OpGo
| OpLogErrors
| OpSubscribe (o : Observable).

Definition apply_op (self : Boots) (op : Op) : Boots :=
  match op with
  | OpGo => snd (fst (go self))
  | OpLogErrors => self
  | OpSubscribe o => snd (subscribe o self)
  end.

End Program.

(** ** A concrete host *)

Module Sample.

(** [path.join] on a base without a trailing slash and a plain relative
    path. *)
Definition join (base p : string) : string := (base ++ "/" ++ p)%string.

Definition quote : string := String (ascii_of_nat 34) EmptyString.

(** [JSON.stringify] on an array of strings that need no escape. *)
Definition stringify (l : list string) : string :=
  ("[" ++ String.concat "," (map (fun s => quote ++ s ++ quote) l) ++ "]")%string.

(** The string a template literal makes of a primitive or of a plain
    object. A function prints as its source text and an error as its name
    and message, which the model does not carry: both are given a fixed
    text, and no example below prints one. *)
Definition toString (v : Value) : string :=
  match v with
  | VUndefined => "undefined"
  | VNull => "null"
  | VBool true => "true"
  | VBool false => "false"
  | VStr s => s
  | VObj _ => "[object Object]"
  | VFun _ => "function () { [native code] }"
  | VTypeError => "TypeError"
  end.

(** A module table: the paths that load, each with its module object. *)
Fixpoint lookup (modules : list (string * Value)) (p : string) : Throwing Value :=
  match modules with
  | [] => None
  | (q, m) :: rest => if String.eqb p q then Some m else lookup rest p
  end.

(** A module object whose default export is [v]. *)
Definition exporting (v : Value) : Value := VObj [("default", v)].

Definition host (args : list string) (modules : list (string * Value)) : Host :=
  {| argv := args;
     cwd := "/app";
     require := lookup modules;
     path_join := join;
     JSON_stringify := stringify;
     ToString := toString |}.

Definition succeeding (name : string) : Value :=
  BootsScript name (ReturnsPromise (Fulfilled (BootsScriptResult true VUndefined name))).



Definition node_args (rest : list string) : list string :=
  "node" :: "main.js" :: rest.

End Sample.

(** ** Resolution: what one turn of the loader does *)

(** How the callback of [_loadModules] ends for one identifier. *)
Inductive Verdict : Type :=
| Accepted (unit : Value)
| WrongShape
| Unresolvable.

Definition shape_check_passes (o : Value) : bool :=
  match isBootsScript o with
  | Some verdict => truthy verdict
  | None => false
  end.

Section Resolution.

Variable host : Host.
Variable base : string.

(** The path the callback holds once its inner [try]/[catch] is over: the
    identifier, or the identifier joined onto the base when the direct load
    threw. *)
Definition tried_path (id : string) : string :=
  fst (fst (load host base id)).

Definition loaded_value (id : string) : Throwing Value :=
  snd (fst (load host base id)).

Definition requires_of (id : string) : list string :=
  snd (load host base id).

Definition verdict (id : string) : Verdict :=
  match loaded_value id with
  | None => Unresolvable
  | Some v =>
      match isBootsScript v with
      | None => Unresolvable
      | Some c => if truthy c then Accepted v else WrongShape
      end
  end.

Definition is_unresolvable (id : string) : bool :=
  match verdict id with Unresolvable => true | _ => false end.

Definition is_wrongShape (id : string) : bool :=
  match verdict id with WrongShape => true | _ => false end.

Definition is_accepted (id : string) : bool :=
  match verdict id with Accepted _ => true | _ => false end.

Definition accepted_units (ids : list string) : list Value :=
  flat_map (fun id => match verdict id with Accepted u => [u] | _ => [] end) ids.

(** The paths reported for the identifiers that do not load, and for those
    whose value fails the check, in input order. *)
Definition unresolved (ids : list string) : list string :=
  map tried_path (filter is_unresolvable ids).

Definition misshapen (ids : list string) : list string :=
  map tried_path (filter is_wrongShape ids).

Definition extend (r : option (list string)) (l : list string) : option (list string) :=
  fold_left push_or_define l r.

End Resolution.

(** ** Sequencing: what the promise chain does *)

(** The promise that [t.run()] returns is fulfilled with [r]. *)
Definition fulfils (t r : Value) : Prop :=
  get t "run" = Some (VFun (ReturnsPromise (Fulfilled r))).

(** The promise that [t.run()] returns is rejected with [e]. *)
Definition rejects (t e : Value) : Prop :=
  get t "run" = Some (VFun (ReturnsPromise (Rejected e))).

(** The events of units that run one after the other and are all
    fulfilled. *)
Definition interleave (units results : list Value) : list Event :=
  flat_map (fun p => [Called (fst p); Next (snd p)]) (combine units results).

(** The units whose [run] was called, and the values sent with [next]. *)
Definition called (sent : list Event) : list Value :=
  flat_map (fun ev => match ev with Called t => [t] | _ => [] end) sent.

Definition emitted (sent : list Event) : list Value :=
  flat_map (fun ev => match ev with Next v => [v] | _ => [] end) sent.

(** ** The shape check *)

(** What the check can see of a value, and what the contract of a script
    unit asks of it. *)
Definition run_is_function (o : Value) : Prop :=
  exists body, get o "run" = Some (VFun body).

Definition name_is_truthy (o : Value) : Prop :=
  exists n, get o "bootsScriptName" = Some n /\ truthy n = true.

Definition name_is_nonempty_string (o : Value) : Prop :=
  exists s, get o "bootsScriptName" = Some (VStr s) /\ s <> "".

Definition run_returns_promise (o : Value) : Prop :=
  exists p, get o "run" = Some (VFun (ReturnsPromise p)).

(** ** The resolution report and the diagnostics *)

(** The diagnostics [go] stores for a report that is not ok. *)
Definition diagnostics (host : Host) (base : string) (ids : list string) : list string :=
  match unresolved host base ids with
  | [] => []
  | l => [cantResolve_message host l]
  end
  ++ match misshapen host base ids with
     | [] => []
     | l => [wrongType_message host l]
     end.

(** ** The scan in one pass *)

(** The scan read once from left to right: a token is kept when it does not
    start with a dash and the last token that did was the flag. *)
Fixpoint one_pass (inside : bool) (args : list string) : list string :=
  match args with
  | [] => []
  | a :: rest =>
      if first_is_dash a then one_pass (String.eqb a commandlineFlag) rest
      else if inside then a :: one_pass inside rest
      else one_pass inside rest
  end.

(** ** The chain up to its first unit that is not fulfilled *)

(** The results of the longest run of leading units whose promise is
    fulfilled. *)
Fixpoint fulfilled_prefix (units : list Value) : list Value :=
  match units with
  | [] => []
  | u :: rest =>
      match get u "run" with
      | Some (VFun (ReturnsPromise (Fulfilled r))) => r :: fulfilled_prefix rest
      | _ => []
      end
  end.

(** What one turn of the chain sends, and leaves, at a unit it reaches. *)
Definition turn_at (u : Value) : list Event * Chain :=
  reducer ([], ChainFulfilled []) u.

(** The event that ends a stream. *)
Definition is_terminal (ev : Event) : bool :=
  match ev with
  | Complete | Error _ => true
  | Called _ | Next _ => false
  end.

(** ** The earlier revision of the class *)

Module Earlier.

Definition commandlineForceSyncFlag : string := "--boots-force-sync".

(** [process.argv.forEach] of the earlier [_loadScriptPaths]: the [while]
    loop is the same, the test of [value] knows two flags. *)
Fixpoint forEach_arg (array : list string) (index : nat) (todo : list string)
         (scriptPaths : list string) : list string :=
  match todo with
  | [] => scriptPaths
  | value :: todo' =>
      forEach_arg array (S index) todo'
        (if String.eqb value commandlineFlag || String.eqb value commandlineForceSyncFlag
         then scan (List.length array) array (index + 1) scriptPaths
         else scriptPaths)
  end.

Definition _loadScriptPaths (argv : list string) : list string :=
  forEach_arg argv 0 argv [].

(** The callback of [scriptPaths.forEach] in the earlier [_loadModules]: one
    [try] around one [require]. *)
Definition loadModule (host : Host) (st : Loading) (value : string) : Loading :=
  let checked :=
    bootsScript <- require_default host value ;;
    verdict <- isBootsScript bootsScript ;;
    Some (bootsScript, truthy verdict) in
  match checked with
  | Some (bootsScript, true) =>
      {| result := result st;
         scripts := scripts st ++ [bootsScript];
         required := required st ++ [value] |}
  | Some (_, false) =>
      {| result := record_wrongType (result st) value;
         scripts := scripts st;
         required := required st ++ [value] |}
  | None =>
      {| result := record_cantResolve (result st) value;
         scripts := scripts st;
         required := required st ++ [value] |}
  end.

Definition _loadModules (host : Host) (self : Boots) (paths : list string) : Loading :=
  fold_left (loadModule host) paths (loading0 self).

(** The earlier [go()], the same text over the earlier private methods.
    The earlier class has no [baseUrl]: the field is carried and not
    read. *)
Definition go (host : Host) (self : Boots) : Observable * Boots * list string :=
  let self := set_scriptPaths self (_loadScriptPaths (argv host)) in
  if Nat.ltb (List.length (scriptPaths self)) 1 then
    (throwError no_paths_message, set_ok self false, [])
  else
    let st := _loadModules host self (scriptPaths self) in
    let self := set_bootsScripts self (scripts st) in
    let checkModules := result st in
    if negb (result_ok checkModules) then
      let self := set_ok self false in
      let self := push_if_defined (cantResolve_message host) (cantResolve checkModules) self in
      let self := push_if_defined (wrongType_message host) (wrongType checkModules) self in
      (throwError load_failed_message, self, required st)
    else
      (runScripts, self, required st).

(** The scan of the earlier revision as a list function. *)
Fixpoint tokens_after_flags (args : list string) : list string :=
  match args with
  | [] => []
  | a :: rest =>
      (if String.eqb a commandlineFlag || String.eqb a commandlineForceSyncFlag
       then up_to_dash rest else [])
        ++ tokens_after_flags rest
  end.

End Earlier.

(** ** The script modules of the repository *)

Module Scripts.

(** [src/test2Script.ts]: after a second the promise is rejected. *)
Definition test2Script : Value :=
  VObj [("bootsScriptName", VStr "test2-script");
        ("run", VFun (ReturnsPromise (Rejected
           (VObj [("success", VBool false); ("error", VStr "big error");
                  ("scriptName", VStr "test2-script")]))))].

(** [src/examples/test2Script.ts], its first module: the error is the name
    followed by a fixed text. *)
Definition examples_test2Script : Value :=
  VObj [("bootsScriptName", VStr "test2-script");
        ("run", VFun (ReturnsPromise (Rejected
           (VObj [("success", VBool false);
                  ("error", VStr ("test2-script" ++ " had an oopsie :-("));
                  ("scriptName", VStr "test2-script")]))))].

(** [src/examples/test2Script.ts], its second module: after a second the
    promise is fulfilled. *)
Definition examples_testScript : Value :=
  VObj [("bootsScriptName", VStr "test-script");
        ("run", VFun (ReturnsPromise (Fulfilled
           (VObj [("success", VBool true); ("scriptName", VStr "test-script")]))))].

End Scripts.

(** ** examples/go.ts *)

Module ExampleGo.

(** A line on the console, by the method that wrote it. *)
Inductive Line : Type :=
| Log (text : string)
| ConsoleError (text : string).

Definition successful_line : string := "Boots Scripts were run successfully".
Definition unsuccessful_line : string := "Boots Scripts were unsuccessful".

Section Observer.

Variable host : Host.

(** [next(result)]: reading [result.scriptName] throws on [undefined] and
    [null]. *)
Definition next (result : Value) : Throwing (list Line) :=
  scriptName <- get result "scriptName" ;;
  Some [Log ("script " ++ ToString host scriptName ++ " was successful")%string].

(** [error(error)] *)
Definition error (boots : Boots) (message : string) : list Line :=
  ConsoleError message :: map Log (logErrors boots).

(** [complete()] *)
Definition complete (boots : Boots) : list Line :=
  if ok boots then [Log successful_line] else [ConsoleError unsuccessful_line].

(** The observer on one event; the call of [run] is no event of the
    stream and writes nothing. *)
Definition handle (boots : Boots) (ev : Event) : Throwing (list Line) :=
  match ev with
  | Called _ => Some []
  | Next result => next result
  | Error message => Some (error boots message)
  | Complete => Some (complete boots)
  end.

(** The observer fed the events of a run. [boots] is the instance as the
    run leaves it: once [go] has returned only the [ok] flag changes, and it
    changes before the one handler that reads it is called. A handler that
    throws makes the whole [None]: what the stream library does with such a
    throw is not modelled. *)
Fixpoint deliver (boots : Boots) (sent : list Event) : Throwing (list Line) :=
  match sent with
  | [] => Some []
  | ev :: rest =>
      lines <- handle boots ev ;;
      more <- deliver boots rest ;;
      Some (lines ++ more)
  end.

(** The program: [new Boots()], [go()], [subscribe]. *)
Definition main : Throwing (list Line) :=
  let '(sent, boots, _) := go_subscribe host (new_Boots host None) in
  deliver boots sent.

End Observer.

End ExampleGo.

(** ** Reading a report and a failure *)

(** The paths held by a collection of the report, none when it is not
    defined. *)
Definition entries (r : option (list string)) : list string :=
  match r with
  | Some l => l
  | None => []
  end.

(** The ways a call of [u.run()] inside the chain ends in a rejection with
    [e]: the promise returned is rejected with [e]; the call throws [e];
    the value returned has no [then] method, and reading or calling it
    throws a TypeError. *)
Definition run_fails (u e : Value) : Prop :=
  get u "run" = Some (VFun (ReturnsPromise (Rejected e)))
  \/ get u "run" = Some (VFun (ThrowsSync e))
  \/ (get u "run" = Some (VFun ReturnsNonThenable) /\ e = VTypeError).

(** The observable is the one of [_runScripts]. *)
Definition is_runScripts (o : Observable) : bool :=
  match o with
  | runScripts => true
  | throwError _ => false
  end.

(** ** The end of a chain *)

(** What the last handler of the chain sends for a rejection. *)
Definition final_events (host : Host) (e : Value) : list Event :=
  match script_error_message host e with
  | Some message => [Error message]
  | None => []
  end.

(** The chain stopped at the unit [u], the first that is not fulfilled. *)
Inductive Stopped (host : Host) (self : Boots) (u : Value) :
  list Event -> Boots -> Prop :=
| StopPending :
    get u "run" = Some (VFun (ReturnsPromise Pending)) ->
    Stopped host self u [Called u] self
| StopFailed e :
    run_fails u e ->
    Stopped host self u (Called u :: final_events host e) (set_ok self false)
| StopNotCallable :
    (forall body, get u "run" <> Some (VFun body)) ->
    Stopped host self u (final_events host VTypeError) (set_ok self false).


(** * Proofs *)

(** ** The identifier scan *)

Section Scan.

Lemma scan_up_to_dash (rest : list string) :
  forall (pre : list string) (fuel : nat) (acc : list string),
    List.length rest <= fuel ->
    scan fuel (pre ++ rest) (List.length pre) acc = acc ++ up_to_dash rest.
Proof.
  induction rest as [|tok rest IH]; intros pre fuel acc Hfuel.
  - rewrite app_nil_r. destruct fuel as [|fuel]; simpl.
    + now rewrite app_nil_r.
    + replace (nth_error pre (List.length pre)) with (@None string).
      * now rewrite app_nil_r.
      * symmetry. apply nth_error_None. lia.
  - destruct fuel as [|fuel]; simpl in Hfuel; [lia|].
    simpl. rewrite nth_error_app2 by lia. rewrite Nat.sub_diag. simpl.
    destruct (first_is_dash tok).
    + now rewrite app_nil_r.
    + specialize (IH (pre ++ [tok]) fuel (acc ++ [tok])).
      rewrite <- app_assoc in IH. simpl in IH.
      rewrite length_app in IH. simpl in IH.
      rewrite Nat.add_1_r in IH. rewrite IH by lia.
      now rewrite <- app_assoc.
Qed.

Lemma forEach_arg_tokens (todo : list string) :
  forall (pre acc : list string),
    forEach_arg (pre ++ todo) (List.length pre) todo acc = acc ++ tokens_after_flag todo.
Proof.
  induction todo as [|value todo IH]; intros pre acc; simpl.
  - now rewrite app_nil_r.
  - specialize (IH (pre ++ [value])).
    rewrite <- app_assoc in IH. simpl in IH.
    rewrite length_app in IH. simpl in IH. rewrite Nat.add_1_r in IH.
    rewrite IH. destruct (String.eqb value commandlineFlag).
    + assert (Hs : scan (List.length (pre ++ value :: todo)) (pre ++ value :: todo)
                     (List.length pre + 1) acc = acc ++ up_to_dash todo).
      { pose proof (scan_up_to_dash todo (pre ++ [value])
                      (List.length (pre ++ value :: todo)) acc) as Hs.
        rewrite <- app_assoc in Hs. simpl in Hs.
        rewrite (length_app pre [value]) in Hs. simpl in Hs.
        apply Hs. rewrite length_app. simpl. lia. }
      rewrite Hs. now rewrite app_assoc.
    + reflexivity.
Qed.

Lemma tokens_after_flag_no_flag (args : list string) :
  ~ In commandlineFlag args -> tokens_after_flag args = [].
Proof.
  induction args as [|a rest IH]; intros Hno; simpl; [reflexivity|].
  destruct (String.eqb_spec a commandlineFlag) as [->|_].
  - exfalso. apply Hno. now left.
  - simpl. apply IH. intros Hin. apply Hno. now right.
Qed.

Lemma up_to_dash_run (ids post : list string) :
  Forall (fun t => first_is_dash t = false) ids ->
  (post = [] \/ exists d post', post = d :: post' /\ first_is_dash d = true) ->
  up_to_dash (ids ++ post) = ids.
Proof.
  intros Hids Hpost. induction Hids as [|t ids Ht _ IH]; simpl.
  - destruct Hpost as [->|(d & post' & -> & Hd)]; simpl; [reflexivity|].
    now rewrite Hd.
  - now rewrite Ht, IH.
Qed.

Lemma tokens_after_flag_app (pre rest : list string) :
  ~ In commandlineFlag pre ->
  tokens_after_flag (pre ++ rest) = tokens_after_flag rest.
Proof.
  induction pre as [|a pre IH]; intros Hno; simpl; [reflexivity|].
  destruct (String.eqb_spec a commandlineFlag) as [->|_].
  - exfalso. apply Hno. now left.
  - simpl. apply IH. intros Hin. apply Hno. now right.
Qed.

End Scan.

Example scan_two_runs :
  _loadScriptPaths ["node"; "main.js"; "--boots"; "a"; ""; "b"; "-v"; "c";
                    "--boots-force-sync"; "d"; "--boots"; "e"]
  = ["a"; ""; "b"; "e"].
Proof. reflexivity. Qed.

(** C9. For every argument list the scan of [_loadScriptPaths] returns the
    tokens that follow an occurrence of the flag, each run ending before the
    next token that starts with a dash or at the end of the list, in the
    order met. Only ["--boots"] opens a run: an argument list without it
    gives no identifier, and around one occurrence of the flag the result is
    the run that follows it. *)
Theorem loadScriptPaths_collects_after_flag :
  (forall args, _loadScriptPaths args = tokens_after_flag args)
  /\ (forall args, ~ In commandlineFlag args -> _loadScriptPaths args = [])
  /\ (forall pre ids post,
         ~ In commandlineFlag pre ->
         Forall (fun t => first_is_dash t = false) ids ->
         (post = [] \/ exists d post', post = d :: post' /\ first_is_dash d = true) ->
         ~ In commandlineFlag post ->
         _loadScriptPaths (pre ++ commandlineFlag :: ids ++ post) = ids).
Proof.
  assert (Heq : forall args, _loadScriptPaths args = tokens_after_flag args).
  { intros args. unfold _loadScriptPaths.
    exact (forEach_arg_tokens args [] []). }
  split; [exact Heq|]. split.
  - intros args Hno. rewrite Heq. now apply tokens_after_flag_no_flag.
  - intros pre ids post Hpre Hids Hpost Hno.
    rewrite Heq, tokens_after_flag_app by assumption.
    simpl. rewrite up_to_dash_run by assumption.
    assert (Hids' : ~ In commandlineFlag ids).
    { intros Hin. rewrite Forall_forall in Hids.
      specialize (Hids _ Hin). discriminate Hids. }
    rewrite tokens_after_flag_no_flag.
    + apply app_nil_r.
    + intros Hin. apply in_app_or in Hin. tauto.
Qed.

(** ** Resolution: the loader over a list of identifiers *)

Section ResolutionFacts.

Variable host : Host.
Variable base : string.

Lemma extend_Some (l a : list string) : extend (Some a) l = Some (a ++ l).
Proof.
  unfold extend. revert a. induction l as [|x l IH]; intros a; simpl.
  - now rewrite app_nil_r.
  - rewrite IH. now rewrite <- app_assoc.
Qed.

Lemma extend_None (l : list string) :
  extend None l = match l with [] => None | _ => Some l end.
Proof.
  destruct l as [|x l]; simpl; [reflexivity|].
  exact (extend_Some l [x]).
Qed.

(** One turn of the loader, by the verdict on its identifier. *)
Lemma loadModule_verdict (st : Loading) (id : string) :
  loadModule host base st id =
  match verdict host base id with
  | Accepted u =>
      {| result := result st;
         scripts := scripts st ++ [u];
         required := required st ++ requires_of host base id |}
  | WrongShape =>
      {| result := record_wrongType (result st) (tried_path host base id);
         scripts := scripts st;
         required := required st ++ requires_of host base id |}
  | Unresolvable =>
      {| result := record_cantResolve (result st) (tried_path host base id);
         scripts := scripts st;
         required := required st ++ requires_of host base id |}
  end.
Proof.
  unfold loadModule, verdict, loaded_value, tried_path, requires_of.
  destruct (load host base id) as [[p v] calls]. simpl.
  destruct v as [v|]; simpl; [|reflexivity].
  destruct (isBootsScript v) as [c|]; simpl; [|reflexivity].
  destruct (truthy c); reflexivity.
Qed.

Lemma fold_loadModule_scripts (ids : list string) :
  forall st, scripts (fold_left (loadModule host base) ids st)
             = scripts st ++ accepted_units host base ids.
Proof.
  induction ids as [|id ids IH]; intros st; simpl.
  - now rewrite app_nil_r.
  - rewrite IH, loadModule_verdict.
    destruct (verdict host base id); simpl; [now rewrite <- app_assoc | reflexivity | reflexivity].
Qed.

Lemma fold_loadModule_required (ids : list string) :
  forall st, required (fold_left (loadModule host base) ids st)
             = required st ++ flat_map (requires_of host base) ids.
Proof.
  induction ids as [|id ids IH]; intros st; simpl.
  - now rewrite app_nil_r.
  - rewrite IH, loadModule_verdict.
    destruct (verdict host base id); simpl; now rewrite <- app_assoc.
Qed.

Lemma fold_loadModule_cantResolve (ids : list string) :
  forall st, cantResolve (result (fold_left (loadModule host base) ids st))
             = extend (cantResolve (result st)) (unresolved host base ids).
Proof.
  induction ids as [|id ids IH]; intros st; simpl; [reflexivity|].
  rewrite IH, loadModule_verdict. unfold unresolved, is_unresolvable. simpl.
  destruct (verdict host base id); reflexivity.
Qed.

Lemma fold_loadModule_wrongType (ids : list string) :
  forall st, wrongType (result (fold_left (loadModule host base) ids st))
             = extend (wrongType (result st)) (misshapen host base ids).
Proof.
  induction ids as [|id ids IH]; intros st; simpl; [reflexivity|].
  rewrite IH, loadModule_verdict. unfold misshapen, is_wrongShape. simpl.
  destruct (verdict host base id); reflexivity.
Qed.

Lemma fold_loadModule_ok (ids : list string) :
  forall st, result_ok (result (fold_left (loadModule host base) ids st))
             = result_ok (result st) && forallb (is_accepted host base) ids.
Proof.
  induction ids as [|id ids IH]; intros st; simpl.
  - now rewrite andb_true_r.
  - rewrite IH, loadModule_verdict. unfold is_accepted.
    destruct (verdict host base id); simpl; [reflexivity | | ]; now rewrite andb_false_r.
Qed.

Lemma requires_of_head (id : string) :
  exists more, requires_of host base id = id :: more.
Proof.
  unfold requires_of, load.
  destruct (require_default host id); simpl; eauto.
Qed.

Lemma forallb_accepted_filters (ids : list string) :
  forallb (is_accepted host base) ids = true <->
  filter (is_unresolvable host base) ids = [] /\ filter (is_wrongShape host base) ids = [].
Proof.
  induction ids as [|id ids IH]; simpl; [tauto|].
  unfold is_accepted, is_unresolvable, is_wrongShape in *.
  destruct (verdict host base id); simpl.
  - exact IH.
  - split; [discriminate | intros [_ H]; discriminate H].
  - split; [discriminate | intros [H _]; discriminate H].
Qed.

End ResolutionFacts.

Section Sequencing.

Lemma fold_reducer_rejected (tasks : list Value) (sent : list Event) (e : Value) :
  fold_left reducer tasks (sent, ChainRejected e) = (sent, ChainRejected e).
Proof.
  induction tasks as [|t tasks IH]; simpl; [reflexivity | exact IH].
Qed.

Lemma fold_reducer_pending (tasks : list Value) (sent : list Event) :
  fold_left reducer tasks (sent, ChainPending) = (sent, ChainPending).
Proof.
  induction tasks as [|t tasks IH]; simpl; [reflexivity | exact IH].
Qed.

Lemma fold_reducer_fulfilled (tasks results : list Value) :
  Forall2 fulfils tasks results ->
  forall sent chainResults,
    fold_left reducer tasks (sent, ChainFulfilled chainResults)
    = (sent ++ interleave tasks results, ChainFulfilled (chainResults ++ results)).
Proof.
  induction 1 as [|t r tasks results Ht _ IH]; intros sent chainResults; simpl.
  - now rewrite !app_nil_r.
  - unfold fulfils in Ht. rewrite Ht. rewrite IH.
    unfold interleave. simpl. rewrite <- !app_assoc. reflexivity.
Qed.

Lemma called_app (a b : list Event) : called (a ++ b) = called a ++ called b.
Proof. unfold called. apply flat_map_app. Qed.

Lemma emitted_app (a b : list Event) : emitted (a ++ b) = emitted a ++ emitted b.
Proof. unfold emitted. apply flat_map_app. Qed.

Lemma called_interleave (tasks results : list Value) :
  Forall2 fulfils tasks results -> called (interleave tasks results) = tasks.
Proof.
  induction 1 as [|t r tasks results _ _ IH]; [reflexivity|].
  unfold interleave in *. simpl. unfold called in *. simpl. now rewrite IH.
Qed.

Lemma emitted_interleave (tasks results : list Value) :
  Forall2 fulfils tasks results -> emitted (interleave tasks results) = results.
Proof.
  induction 1 as [|t r tasks results _ _ IH]; [reflexivity|].
  unfold interleave in *. simpl. unfold emitted in *. simpl. now rewrite IH.
Qed.

(** The chain over units of which the first to fail is [u]: the units
    before it are called and answered in turn, [u] is called, and the chain
    is rejected with what [u] rejected with; the units after [u] are not
    called. *)
Lemma fold_reducer_first_rejection (pre post rs : list Value) (u e : Value) :
  Forall2 fulfils pre rs ->
  rejects u e ->
  fold_left reducer (pre ++ u :: post) ([], ChainFulfilled [])
  = (interleave pre rs ++ [Called u], ChainRejected e).
Proof.
  intros Hpre Hu. rewrite fold_left_app.
  rewrite (fold_reducer_fulfilled pre rs Hpre). simpl.
  unfold rejects in Hu. rewrite Hu.
  apply fold_reducer_rejected.
Qed.

End Sequencing.

(** ** The session *)

Lemma ok_push_if_defined (f : list string -> string) (r : option (list string)) (self : Boots) :
  ok (push_if_defined f r self) = ok self.
Proof. destruct r; reflexivity. Qed.

Lemma ok_go (host : Host) (self : Boots) :
  ok (snd (fst (go host self))) = ok self \/ ok (snd (fst (go host self))) = false.
Proof.
  unfold go. simpl.
  destruct (Nat.ltb _ 1); simpl; [now right|].
  destruct (negb _); simpl.
  - right. now rewrite !ok_push_if_defined.
  - now left.
Qed.

Lemma ok_runScripts (host : Host) (self : Boots) :
  ok (snd (_runScripts host self)) = ok self \/ ok (snd (_runScripts host self)) = false.
Proof.
  unfold _runScripts.
  destruct (fold_left reducer (bootsScripts self) ([], ChainFulfilled [])) as [sent chain].
  destruct chain as [results|e|]; simpl; [now left | | now left].
  destruct (script_error_message host e); now right.
Qed.

Lemma ok_apply_op (host : Host) (self : Boots) (op : Op) :
  ok (apply_op host self op) = ok self \/ ok (apply_op host self op) = false.
Proof.
  destruct op as [| |o]; simpl.
  - apply ok_go.
  - now left.
  - destruct o; simpl; [now left | apply ok_runScripts].
Qed.

(** C8. The [ok] flag of an instance is true when the constructor returns;
    every operation on the instance ([go], [logErrors], subscribing to an
    observable that [go] returned) leaves the flag as it was or sets it to
    false; so after any sequence of operations that starts from an instance
    whose flag is false, the flag is false. *)
Theorem ok_flag_is_monotone :
  forall host : Host,
    (forall options, ok (new_Boots host options) = true)
    /\ (forall self op,
           ok (apply_op host self op) = ok self \/ ok (apply_op host self op) = false)
    /\ (forall ops self,
           ok self = false -> ok (fold_left (apply_op host) ops self) = false).
Proof.
  intros host. split; [reflexivity|]. split; [apply ok_apply_op|].
  induction ops as [|op ops IH]; intros self Hfalse; simpl; [exact Hfalse|].
  apply IH. destruct (ok_apply_op host self op) as [H|H]; congruence.
Qed.

(** C6. When the scan of the arguments finds no identifier, [go] sets the
    [ok] flag to false and returns the observable that fails with the
    message that no script paths were specified; [require] is not called,
    and a subscriber is sent that one error and nothing else, so no [run] is
    called. *)
Theorem empty_identifier_list_fails (host : Host) (self : Boots) :
  _loadScriptPaths (argv host) = [] ->
  go host self
  = (throwError no_paths_message, set_ok (set_scriptPaths self []) false, [])
  /\ go_subscribe host self
     = ([Error no_paths_message], set_ok (set_scriptPaths self []) false, [])
  /\ ok (snd (fst (go_subscribe host self))) = false
  /\ called (fst (fst (go_subscribe host self))) = []
  /\ emitted (fst (fst (go_subscribe host self))) = [].
Proof.
  intros Hempty.
  assert (Hgo : go host self
                = (throwError no_paths_message, set_ok (set_scriptPaths self []) false, [])).
  { unfold go. simpl. rewrite Hempty. reflexivity. }
  assert (Hsub : go_subscribe host self
                 = ([Error no_paths_message], set_ok (set_scriptPaths self []) false, [])).
  { unfold go_subscribe. rewrite Hgo. reflexivity. }
  rewrite Hsub. repeat split; assumption.
Qed.

Lemma empty_identifier_list_fails_witness :
  let host := Sample.host (Sample.node_args ["--verbose"; "a"]) [] in
  _loadScriptPaths (argv host) = []
  /\ go_subscribe host (new_Boots host None)
     = ([Error "Boots Error: No script paths were specified."],
        {| scriptPaths := []; bootsScripts := []; baseUrl := "/app";
           errors := []; ok := false |},
        []).
Proof.
  split; [reflexivity|].
  apply (empty_identifier_list_fails
           (Sample.host (Sample.node_args ["--verbose"; "a"]) [])
           (new_Boots (Sample.host (Sample.node_args ["--verbose"; "a"]) []) None)).
  reflexivity.
Defined.

(** ** Running the units *)

Lemma runScripts_first_rejection (host : Host) (self : Boots)
      (pre post rs : list Value) (u e : Value) :
  bootsScripts self = pre ++ u :: post ->
  Forall2 fulfils pre rs ->
  rejects u e ->
  _runScripts host self
  = (interleave pre rs ++ Called u ::
       match script_error_message host e with
       | Some message => [Error message]
       | None => []
       end,
     set_ok self false).
Proof.
  intros Hunits Hpre Hu. unfold _runScripts. rewrite Hunits.
  rewrite (fold_reducer_first_rejection pre post rs u e Hpre Hu).
  destruct (script_error_message host e); [rewrite <- app_assoc|]; reflexivity.
Qed.

Lemma Forall2_fulfils_length (tasks results : list Value) :
  Forall2 fulfils tasks results -> List.length results = List.length tasks.
Proof. induction 1; simpl; congruence. Qed.








(** ** A whole run *)

Lemma verdict_of_loaded (host : Host) (base id : string) (u : Value) :
  loaded_value host base id = Some u ->
  shape_check_passes u = true ->
  verdict host base id = Accepted u.
Proof.
  intros Hload Hpass. unfold verdict. rewrite Hload.
  unfold shape_check_passes in Hpass.
  destruct (isBootsScript u) as [c|]; [|discriminate Hpass].
  now rewrite Hpass.
Qed.

Lemma all_accepted (host : Host) (base : string) (ids : list string) (us : list Value) :
  Forall2 (fun id u => loaded_value host base id = Some u
                       /\ shape_check_passes u = true) ids us ->
  accepted_units host base ids = us
  /\ forallb (is_accepted host base) ids = true.
Proof.
  induction 1 as [|id u ids us [Hload Hpass] _ [IHu IHa]]; [split; reflexivity|].
  pose proof (verdict_of_loaded host base id u Hload Hpass) as Hv.
  unfold accepted_units, is_accepted in *. simpl. rewrite Hv. simpl.
  rewrite IHu, IHa. split; reflexivity.
Qed.

(** C2. On a fresh instance, when the scan finds at least one identifier,
    every identifier loads (directly or from the base directory) a value
    that passes the shape check, and the promise of every unit is fulfilled,
    the subscriber is sent one result per identifier, in the order of the
    identifiers, the call of each unit coming after the result of the unit
    before it, and then the completion; the [ok] flag stays true. *)
Theorem all_units_succeed (host : Host) (options : option BootsOptions)
        (us rs : list Value) :
  let self := new_Boots host options in
  let ids := _loadScriptPaths (argv host) in
  ids <> [] ->
  Forall2 (fun id u => loaded_value host (baseUrl self) id = Some u
                       /\ shape_check_passes u = true) ids us ->
  Forall2 fulfils us rs ->
  fst (fst (go_subscribe host self)) = interleave us rs ++ [Complete]
  /\ emitted (fst (fst (go_subscribe host self))) = rs
  /\ List.length rs = List.length ids
  /\ called (fst (fst (go_subscribe host self))) = us
  /\ ok (snd (fst (go_subscribe host self))) = true.
Proof.
  intros self ids Hne Hload Hrun.
  destruct (all_accepted host (baseUrl self) ids us Hload) as [Hunits Hacc].
  assert (Hgo : go host self
                = (runScripts,
                   set_bootsScripts (set_scriptPaths self ids) us,
                   flat_map (requires_of host (baseUrl self)) ids)).
  { unfold go. fold ids.
    replace (Nat.ltb (List.length (scriptPaths (set_scriptPaths self ids))) 1) with false.
    2:{ simpl. destruct ids; [congruence | reflexivity]. }
    unfold _loadModules. simpl scriptPaths. simpl baseUrl.
    rewrite fold_loadModule_ok, fold_loadModule_scripts, fold_loadModule_required.
    fold self. simpl baseUrl in *. rewrite Hacc, Hunits. reflexivity. }
  unfold go_subscribe. rewrite Hgo. simpl subscribe.
  unfold _runScripts. simpl bootsScripts.
  rewrite (fold_reducer_fulfilled us rs Hrun). simpl.
  rewrite emitted_app, called_app.
  rewrite (emitted_interleave us rs Hrun), (called_interleave us rs Hrun).
  repeat split.
  - apply app_nil_r.
  - rewrite (Forall2_fulfils_length us rs Hrun).
    symmetry. exact (Forall2_length Hload).
  - apply app_nil_r.
Qed.

Lemma all_units_succeed_witness :
  let a := Sample.succeeding "a" in
  let b := Sample.succeeding "b" in
  let host := Sample.host (Sample.node_args ["--boots"; "a"; "b"; "--verbose"])
                [("a", Sample.exporting a); ("/app/b", Sample.exporting b)] in
  _loadScriptPaths (argv host) = ["a"; "b"]
  /\ fst (fst (go_subscribe host (new_Boots host None)))
     = [Called a; Next (BootsScriptResult true VUndefined "a");
        Called b; Next (BootsScriptResult true VUndefined "b"); Complete].
Proof.
  split; [reflexivity|].
  apply (all_units_succeed
           (Sample.host (Sample.node_args ["--boots"; "a"; "b"; "--verbose"])
              [("a", Sample.exporting (Sample.succeeding "a"));
               ("/app/b", Sample.exporting (Sample.succeeding "b"))])
           None
           [Sample.succeeding "a"; Sample.succeeding "b"]
           [BootsScriptResult true VUndefined "a"; BootsScriptResult true VUndefined "b"]).
  - discriminate.
  - repeat constructor.
  - repeat constructor.
Defined.

(** ** What the loader records *)

Lemma tried_path_cases (host : Host) (base id : string) :
  tried_path host base id
  = match require_default host id with
    | Some _ => id
    | None => path_join host base id
    end.
Proof.
  unfold tried_path, load. destruct (require_default host id); reflexivity.
Qed.

(** C4, as the code has it. When the direct load of an identifier throws,
    the loader calls [require] once more, on the identifier joined onto the
    base directory. When that throws too, the joined path is what is pushed
    onto [cantResolve]; no unit is appended, [wrongType] is untouched, and
    the identifiers after it are processed from the state so reached. *)
Theorem both_loads_fail (host : Host) (base : string) (st0 : Loading)
        (pre post : list string) (id : string) :
  require_default host id = None ->
  require_default host (path_join host base id) = None ->
  let st := fold_left (loadModule host base) pre st0 in
  requires_of host base id = [id; path_join host base id]
  /\ loadModule host base st id
     = {| result :=
            {| result_ok := false;
               cantResolve :=
                 push_or_define (cantResolve (result st)) (path_join host base id);
               wrongType := wrongType (result st) |};
          scripts := scripts st;
          required := required st ++ [id; path_join host base id] |}
  /\ fold_left (loadModule host base) (pre ++ id :: post) st0
     = fold_left (loadModule host base) post (loadModule host base st id).
Proof.
  intros Hdirect Hjoined st.
  assert (Hload : load host base id
                  = (path_join host base id, None, [id; path_join host base id])).
  { unfold load. rewrite Hdirect, Hjoined. reflexivity. }
  split; [|split].
  - unfold requires_of. now rewrite Hload.
  - unfold loadModule. rewrite Hload. reflexivity.
  - rewrite fold_left_app. reflexivity.
Qed.

Lemma both_loads_fail_witness :
  let host := Sample.host (Sample.node_args ["--boots"; "a"; "b"])
                [("b", Sample.exporting (Sample.succeeding "b"))] in
  let self := new_Boots host None in
  loadModule host "/app" (loading0 self) "a"
  = {| result := {| result_ok := false; cantResolve := Some ["/app/a"];
                    wrongType := None |};
       scripts := [];
       required := ["a"; "/app/a"] |}.
Proof.
  apply (both_loads_fail
           (Sample.host (Sample.node_args ["--boots"; "a"; "b"])
              [("b", Sample.exporting (Sample.succeeding "b"))])
           "/app"
           (loading0 (new_Boots
                        (Sample.host (Sample.node_args ["--boots"; "a"; "b"])
                           [("b", Sample.exporting (Sample.succeeding "b"))]) None))
           [] ["b"] "a"); reflexivity.
Defined.

(** C4, as the claim has it, fails: the identifier ["a"] loads neither
    directly nor from the base directory ["/app"], and the unresolvable
    collection then holds ["/app/a"], not the identifier as it was given. *)
Lemma joined_path_is_recorded :
  let host := Sample.host (Sample.node_args ["--boots"; "a"]) [] in
  let st := _loadModules host (new_Boots host None) (_loadScriptPaths (argv host)) in
  _loadScriptPaths (argv host) = ["a"]
  /\ require_default host "a" = None
  /\ require_default host (path_join host "/app" "a") = None
  /\ cantResolve (result st) = Some ["/app/a"]
  /\ cantResolve (result st) <> Some ["a"].
Proof. repeat split. discriminate. Qed.

(** C10, as the code has it. When the value loaded for an identifier is
    [undefined] or [null], the shape check throws on its first property
    read; the handler of the loader catches the throw and pushes onto
    [cantResolve], leaving [wrongType] and the units as they were. The path
    pushed is the one that loaded: the identifier when the direct load
    succeeded, the identifier joined onto the base directory otherwise. *)
Theorem nullish_default_is_unresolvable (host : Host) (base : string)
        (st : Loading) (id : string) (v : Value) :
  loaded_value host base id = Some v ->
  v = VUndefined \/ v = VNull ->
  isBootsScript v = None
  /\ loadModule host base st id
     = {| result :=
            {| result_ok := false;
               cantResolve :=
                 push_or_define (cantResolve (result st)) (tried_path host base id);
               wrongType := wrongType (result st) |};
          scripts := scripts st;
          required := required st ++ requires_of host base id |}
  /\ tried_path host base id
     = match require_default host id with
       | Some _ => id
       | None => path_join host base id
       end.
Proof.
  intros Hload Hnull.
  assert (Hthrows : isBootsScript v = None) by (destruct Hnull; subst v; reflexivity).
  split; [exact Hthrows|]. split; [|apply tried_path_cases].
  rewrite loadModule_verdict. unfold verdict. rewrite Hload, Hthrows. reflexivity.
Qed.

Lemma nullish_default_is_unresolvable_witness :
  let host := Sample.host (Sample.node_args ["--boots"; "a"])
                [("a", Sample.exporting VUndefined)] in
  loadModule host "/app" (loading0 (new_Boots host None)) "a"
  = {| result := {| result_ok := false; cantResolve := Some ["a"]; wrongType := None |};
       scripts := [];
       required := ["a"] |}.
Proof.
  apply (nullish_default_is_unresolvable
           (Sample.host (Sample.node_args ["--boots"; "a"])
              [("a", Sample.exporting VUndefined)])
           "/app"
           (loading0 (new_Boots
                        (Sample.host (Sample.node_args ["--boots"; "a"])
                           [("a", Sample.exporting VUndefined)]) None))
           "a" VUndefined); [reflexivity | now left].
Defined.

(** C10, as the claim has it, fails when the module is found from the base
    directory only: the module at ["/app/a"] loads and its default export is
    [undefined]; the unresolvable collection then holds ["/app/a"] and not
    the identifier ["a"]. *)
Lemma nullish_default_records_joined_path :
  let host := Sample.host (Sample.node_args ["--boots"; "a"])
                [("/app/a", Sample.exporting VUndefined)] in
  let st := _loadModules host (new_Boots host None) (_loadScriptPaths (argv host)) in
  _loadScriptPaths (argv host) = ["a"]
  /\ loaded_value host "/app" "a" = Some VUndefined
  /\ cantResolve (result st) = Some ["/app/a"]
  /\ cantResolve (result st) <> Some ["a"]
  /\ wrongType (result st) = None.
Proof. repeat split. discriminate. Qed.

(** ** The shape check, proved *)

Lemma shape_check_passes_iff (o : Value) :
  shape_check_passes o = true <-> run_is_function o /\ name_is_truthy o.
Proof.
  unfold shape_check_passes, isBootsScript, run_is_function, name_is_truthy.
  destruct o as [| |b|s|body|fields|]; simpl;
    try (split; [discriminate | intros [[body' Hb] _]; discriminate Hb]).
  destruct (assoc "run" fields) as [| |b|s|body|fs|] eqn:Hrun; simpl;
    try (split; [discriminate | intros [[body' Hb] _]; discriminate Hb]).
  unfold and_then. simpl. split.
  - intros Ht. split; eauto.
  - intros [_ (n & Hn & Ht)]. injection Hn as Hn. now rewrite Hn.
Qed.

(** C5, as the code has it. The shape check passes exactly when the [run]
    property of the value is a function and its [bootsScriptName] property
    is truthy (for a string: not empty); what the function takes or returns
    is not looked at. A value with a truthy name whose [run] is not a
    function makes the check return false without a throw, and the loader
    then pushes the path it holds onto [wrongType], appends no unit and
    leaves [cantResolve] as it was. *)
Theorem shape_check_looks_at_run_and_name (o : Value) :
  (shape_check_passes o = true <-> run_is_function o /\ name_is_truthy o)
  /\ (forall s, get o "bootsScriptName" = Some (VStr s) ->
                (name_is_truthy o <-> s <> ""))
  /\ (forall host base st id,
         loaded_value host base id = Some o ->
         name_is_truthy o ->
         ~ run_is_function o ->
         isBootsScript o = Some (VBool false)
         /\ loadModule host base st id
            = {| result :=
                   {| result_ok := false;
                      cantResolve := cantResolve (result st);
                      wrongType :=
                        push_or_define (wrongType (result st)) (tried_path host base id) |};
                 scripts := scripts st;
                 required := required st ++ requires_of host base id |}).
Proof.
  split; [apply shape_check_passes_iff|]. split.
  - intros s Hs. unfold name_is_truthy. split.
    + intros (n & Hn & Ht) ->. rewrite Hs in Hn. injection Hn as <-. discriminate Ht.
    + intros Hne. exists (VStr s). split; [exact Hs|]. simpl.
      destruct (String.eqb_spec s ""); [contradiction | reflexivity].
  - intros host base st id Hload (n & Hn & Ht) Hrun.
    assert (Hcheck : isBootsScript o = Some (VBool false)).
    { unfold isBootsScript.
      destruct o; simpl in *; try discriminate Hn; try reflexivity.
      destruct (assoc "run" fields) eqn:Hr; try reflexivity.
      exfalso. apply Hrun. unfold run_is_function. simpl. rewrite Hr. eauto. }
    split; [exact Hcheck|].
    rewrite loadModule_verdict. unfold verdict. rewrite Hload, Hcheck. reflexivity.
Qed.

Lemma shape_check_looks_at_run_and_name_witness :
  let x := VObj [("bootsScriptName", VStr "x"); ("run", VStr "later")] in
  let host := Sample.host (Sample.node_args ["--boots"; "x"]) [("x", Sample.exporting x)] in
  loadModule host "/app" (loading0 (new_Boots host None)) "x"
  = {| result := {| result_ok := false; cantResolve := None; wrongType := Some ["x"] |};
       scripts := [];
       required := ["x"] |}.
Proof.
  destruct (shape_check_looks_at_run_and_name
              (VObj [("bootsScriptName", VStr "x"); ("run", VStr "later")]))
    as (_ & _ & H).
  apply (H (Sample.host (Sample.node_args ["--boots"; "x"])
              [("x", Sample.exporting
                       (VObj [("bootsScriptName", VStr "x"); ("run", VStr "later")]))])
           "/app").
  - reflexivity.
  - exists (VStr "x"). split; reflexivity.
  - intros [body Hb]. discriminate Hb.
Defined.

(** C5, as the claim has it, fails: a value with a name that is a non-empty
    string and a [run] that is a function passes the check although calling
    [run] returns no promise; the unit is then run, and the chain is
    rejected by the call of [then] on what [run] returned. *)
Lemma check_passes_a_run_that_returns_no_promise :
  let o := BootsScript "x" ReturnsNonThenable in
  let host := Sample.host (Sample.node_args ["--boots"; "x"]) [("x", Sample.exporting o)] in
  name_is_nonempty_string o
  /\ ~ run_returns_promise o
  /\ shape_check_passes o = true
  /\ fst (fst (go_subscribe host (new_Boots host None)))
     = [Called o;
        Error "Boots Error: Script undefined reported the following error: undefined"].
Proof.
  split; [|split; [|split]].
  - exists "x". split; [reflexivity | discriminate].
  - intros [p Hp]. discriminate Hp.
  - reflexivity.
  - reflexivity.
Qed.

(** ** The resolution report and the diagnostics, proved *)

Lemma loadModules_cantResolve (host : Host) (self : Boots) (ids : list string) :
  cantResolve (result (_loadModules host self ids))
  = match unresolved host (baseUrl self) ids with [] => None | l => Some l end.
Proof.
  unfold _loadModules. rewrite fold_loadModule_cantResolve. simpl.
  rewrite extend_None. destruct (unresolved host (baseUrl self) ids); reflexivity.
Qed.

Lemma loadModules_wrongType (host : Host) (self : Boots) (ids : list string) :
  wrongType (result (_loadModules host self ids))
  = match misshapen host (baseUrl self) ids with [] => None | l => Some l end.
Proof.
  unfold _loadModules. rewrite fold_loadModule_wrongType. simpl.
  rewrite extend_None. destruct (misshapen host (baseUrl self) ids); reflexivity.
Qed.

Lemma loadModules_ok_iff (host : Host) (self : Boots) (ids : list string) :
  result_ok (result (_loadModules host self ids)) = true
  <-> cantResolve (result (_loadModules host self ids)) = None
      /\ wrongType (result (_loadModules host self ids)) = None.
Proof.
  rewrite loadModules_cantResolve, loadModules_wrongType.
  unfold _loadModules. rewrite fold_loadModule_ok. simpl.
  rewrite forallb_accepted_filters. unfold unresolved, misshapen.
  destruct (filter (is_unresolvable host (baseUrl self)) ids);
    destruct (filter (is_wrongShape host (baseUrl self)) ids); simpl;
    split; intros [H1 H2]; split; congruence.
Qed.

Lemma go_report_not_ok (host : Host) (self : Boots) :
  let ids := _loadScriptPaths (argv host) in
  let st := _loadModules host self ids in
  ids <> [] ->
  result_ok (result st) = false ->
  go host self
  = (throwError load_failed_message,
     {| scriptPaths := ids;
        bootsScripts := scripts st;
        baseUrl := baseUrl self;
        errors := errors self ++ diagnostics host (baseUrl self) ids;
        ok := false |},
     required st).
Proof.
  intros ids st Hne Hok. unfold go. fold ids.
  replace (Nat.ltb (List.length (scriptPaths (set_scriptPaths self ids))) 1) with false.
  2:{ simpl. destruct ids; [congruence | reflexivity]. }
  change (_loadModules host (set_scriptPaths self ids)
            (scriptPaths (set_scriptPaths self ids))) with st.
  rewrite Hok. simpl negb. cbv iota.
  unfold st at 1 2. rewrite loadModules_cantResolve, loadModules_wrongType.
  unfold diagnostics.
  destruct (unresolved host (baseUrl self) ids);
    destruct (misshapen host (baseUrl self) ids);
    unfold push_if_defined, push_error, set_ok, set_bootsScripts, set_scriptPaths;
    cbn [scriptPaths bootsScripts baseUrl errors ok app];
    rewrite ?app_nil_r, <- ?app_assoc; reflexivity.
Qed.

(** C3, as the code has it. The loader calls [require] on every identifier,
    whatever became of the ones before it. Its report is ok exactly when
    neither [cantResolve] nor [wrongType] was defined, and a collection that
    is defined is not empty: it holds, in input order, the path the loader
    held for each identifier that did not load (that failed the check),
    which is the identifier itself or, when the direct load threw, the
    identifier joined onto the base directory. When the report is not ok,
    [go] sets the [ok] flag to false, stores one diagnostic per defined
    collection and returns the failing observable: a subscriber is sent one
    error, no [run] is called and nothing is sent with [next]. *)
Theorem resolution_is_exhaustive (host : Host) (self : Boots) :
  let ids := _loadScriptPaths (argv host) in
  let base := baseUrl self in
  let st := _loadModules host self ids in
  (forall id, In id ids -> In id (required st))
  /\ (result_ok (result st) = true
      <-> cantResolve (result st) = None /\ wrongType (result st) = None)
  /\ cantResolve (result st)
     = match unresolved host base ids with [] => None | l => Some l end
  /\ wrongType (result st)
     = match misshapen host base ids with [] => None | l => Some l end
  /\ (forall id, In id ids ->
        (verdict host base id = Unresolvable ->
         In (tried_path host base id) (unresolved host base ids))
        /\ (verdict host base id = WrongShape ->
            In (tried_path host base id) (misshapen host base ids)))
  /\ (ids <> [] -> result_ok (result st) = false ->
      go_subscribe host self
      = ([Error load_failed_message],
         {| scriptPaths := ids;
            bootsScripts := scripts st;
            baseUrl := base;
            errors := errors self ++ diagnostics host base ids;
            ok := false |},
         required st)).
Proof.
  intros ids base st. split; [|split; [|split; [|split; [|split]]]].
  - intros id Hin. unfold st, _loadModules. rewrite fold_loadModule_required. simpl.
    apply in_flat_map. exists id. split; [exact Hin|].
    destruct (requires_of_head host (baseUrl self) id) as [more ->]. now left.
  - apply loadModules_ok_iff.
  - apply loadModules_cantResolve.
  - apply loadModules_wrongType.
  - intros id Hin. split; intros Hv.
    + unfold unresolved. apply in_map. apply filter_In. split; [exact Hin|].
      unfold is_unresolvable. now rewrite Hv.
    + unfold misshapen. apply in_map. apply filter_In. split; [exact Hin|].
      unfold is_wrongShape. now rewrite Hv.
  - intros Hne Hok. unfold go_subscribe.
    rewrite (go_report_not_ok host self Hne Hok). reflexivity.
Qed.

Lemma resolution_is_exhaustive_witness :
  let x := VObj [("bootsScriptName", VStr "x")] in
  let host := Sample.host (Sample.node_args ["--boots"; "x"; "y"; "z"; "-v"; "w"])
                [("x", Sample.exporting x); ("z", Sample.exporting VNull)] in
  let self := new_Boots host None in
  result_ok (result (_loadModules host self ["x"; "y"; "z"])) = false
  /\ go_subscribe host self
     = ([Error load_failed_message],
        {| scriptPaths := ["x"; "y"; "z"];
           bootsScripts := [];
           baseUrl := "/app";
           errors := [cantResolve_message host ["/app/y"; "z"];
                      wrongType_message host ["x"]];
           ok := false |},
        ["x"; "y"; "/app/y"; "z"]).
Proof.
  split; [reflexivity|].
  destruct (resolution_is_exhaustive
              (Sample.host (Sample.node_args ["--boots"; "x"; "y"; "z"; "-v"; "w"])
                 [("x", Sample.exporting (VObj [("bootsScriptName", VStr "x")]));
                  ("z", Sample.exporting VNull)])
              (new_Boots
                 (Sample.host (Sample.node_args ["--boots"; "x"; "y"; "z"; "-v"; "w"])
                    [("x", Sample.exporting (VObj [("bootsScriptName", VStr "x")]));
                     ("z", Sample.exporting VNull)]) None))
    as (_ & _ & _ & _ & _ & H).
  apply H; [discriminate | reflexivity].
Defined.

(** C3, as the claim has it, fails in its last part: neither ["a"] nor
    ["b"] loads, directly or from the base directory ["/app"]; the one
    diagnostic stored lists ["/app/a"] and ["/app/b"], and lists neither
    identifier as it was given. *)
Lemma diagnostics_list_joined_paths :
  let host := Sample.host (Sample.node_args ["--boots"; "a"; "b"]) [] in
  let self := snd (fst (go_subscribe host (new_Boots host None))) in
  _loadScriptPaths (argv host) = ["a"; "b"]
  /\ verdict host "/app" "a" = Unresolvable
  /\ verdict host "/app" "b" = Unresolvable
  /\ errors self = [cantResolve_message host ["/app/a"; "/app/b"]]
  /\ ~ In "a" ["/app/a"; "/app/b"]
  /\ ~ In "b" ["/app/a"; "/app/b"].
Proof.
  repeat split; intros [H|[H|[]]]; discriminate H.
Qed.

(** * Further properties of the code *)

(** ** The scan *)

Lemma loadScriptPaths_tokens (args : list string) :
  _loadScriptPaths args = tokens_after_flag args.
Proof. exact (forEach_arg_tokens args [] []). Qed.

Lemma flag_is_dash (a : string) :
  String.eqb a commandlineFlag = true -> first_is_dash a = true.
Proof. intros H. apply String.eqb_eq in H. subst a. reflexivity. Qed.

Lemma up_to_dash_kept (rest : list string) :
  Forall (fun t => first_is_dash t = false /\ In t rest) (up_to_dash rest).
Proof.
  induction rest as [|a rest IH]; simpl; [constructor|].
  destruct (first_is_dash a) eqn:Ha; [constructor|].
  constructor; [split; [exact Ha | now left]|].
  eapply Forall_impl; [|exact IH]. intros t [Ht Hin]. split; [exact Ht | now right].
Qed.

Lemma tokens_after_flag_kept (args : list string) :
  Forall (fun t => first_is_dash t = false /\ In t args) (tokens_after_flag args).
Proof.
  induction args as [|a rest IH]; simpl; [constructor|].
  apply Forall_app. split.
  - destruct (String.eqb a commandlineFlag); [|constructor].
    eapply Forall_impl; [|apply up_to_dash_kept].
    intros t [Ht Hin]. split; [exact Ht | now right].
  - eapply Forall_impl; [|exact IH]. intros t [Ht Hin]. split; [exact Ht | now right].
Qed.

(** X1. Whatever the arguments, every identifier the scan returns is one of
    the arguments and does not start with a dash; the flag itself is never
    returned. *)
Theorem scan_returns_arguments_without_dash (args : list string) :
  Forall (fun t => first_is_dash t = false /\ In t args) (_loadScriptPaths args)
  /\ ~ In commandlineFlag (_loadScriptPaths args).
Proof.
  rewrite loadScriptPaths_tokens. split; [apply tokens_after_flag_kept|].
  intros Hin. pose proof (tokens_after_flag_kept args) as H.
  rewrite Forall_forall in H. destruct (H _ Hin) as [Hd _]. discriminate Hd.
Qed.

Lemma one_pass_tokens (args : list string) :
  one_pass false args = tokens_after_flag args
  /\ one_pass true args = up_to_dash args ++ tokens_after_flag args.
Proof.
  induction args as [|a rest [IHf IHt]]; simpl; [split; reflexivity|].
  destruct (first_is_dash a) eqn:Ha.
  - destruct (String.eqb a commandlineFlag); simpl; rewrite ?IHf, ?IHt; split; reflexivity.
  - destruct (String.eqb a commandlineFlag) eqn:Hflag.
    + apply flag_is_dash in Hflag. congruence.
    + simpl. rewrite IHf, IHt. split; reflexivity.
Qed.

Lemma one_pass_length (args : list string) :
  forall inside, List.length (one_pass inside args) <= List.length args.
Proof.
  induction args as [|a rest IH]; intros inside; simpl; [lia|].
  destruct (first_is_dash a); [specialize (IH (String.eqb a commandlineFlag)); lia|].
  destruct inside; simpl; specialize (IH true) as IH1; specialize (IH false) as IH2; lia.
Qed.

(** X2. The nested loops of the scan return what one pass from left to
    right returns that keeps a token when it does not start with a dash and
    the last token before it that did is the flag; so a token is returned at
    most once for each place it has among the arguments, and the scan never
    returns more identifiers than there are arguments. *)
Theorem scan_is_one_pass (args : list string) :
  _loadScriptPaths args = one_pass false args
  /\ List.length (_loadScriptPaths args) <= List.length args.
Proof.
  rewrite loadScriptPaths_tokens.
  destruct (one_pass_tokens args) as [Hf _]. rewrite <- Hf.
  split; [reflexivity | apply one_pass_length].
Qed.

Lemma up_to_dash_stops (rest b : list string) :
  (b = [] \/ exists d b', b = d :: b' /\ first_is_dash d = true) ->
  up_to_dash (rest ++ b) = up_to_dash rest.
Proof.
  intros Hb. induction rest as [|a rest IH]; simpl.
  - destruct Hb as [->|(d & b' & -> & Hd)]; simpl; [reflexivity | now rewrite Hd].
  - now rewrite IH.
Qed.

(** X3. Two argument lists of which the second is empty or starts with a
    token that starts with a dash are scanned one after the other: the scan
    of their concatenation is the scan of the first followed by the scan of
    the second. *)
Theorem scan_of_concatenation (a b : list string) :
  (b = [] \/ exists d b', b = d :: b' /\ first_is_dash d = true) ->
  _loadScriptPaths (a ++ b) = _loadScriptPaths a ++ _loadScriptPaths b.
Proof.
  intros Hb. rewrite !loadScriptPaths_tokens.
  induction a as [|x a IH]; simpl; [reflexivity|].
  rewrite IH, (up_to_dash_stops a b Hb).
  now rewrite app_assoc.
Qed.

Lemma scan_of_concatenation_witness :
  _loadScriptPaths (["node"; "--boots"; "a"] ++ ["--boots"; "b"; "-v"; "c"])
  = _loadScriptPaths ["node"; "--boots"; "a"]
      ++ _loadScriptPaths ["--boots"; "b"; "-v"; "c"].
Proof.
  apply (scan_of_concatenation ["node"; "--boots"; "a"] ["--boots"; "b"; "-v"; "c"]).
  right. exists "--boots", ["b"; "-v"; "c"]. split; reflexivity.
Defined.

(** ** The shape check and the loader *)

(** X4. The shape check throws on [undefined] and on [null] and on no other
    value. When it does not throw it returns [false] or, the [run] property
    being a function, the [bootsScriptName] property itself (not a
    boolean). *)
Theorem shape_check_throws_on_nullish_only (o : Value) :
  (isBootsScript o = None <-> o = VUndefined \/ o = VNull)
  /\ (forall v, isBootsScript o = Some v ->
                v = VBool false
                \/ (run_is_function o /\ get o "bootsScriptName" = Some v)).
Proof.
  split.
  - destruct o; simpl; split; intros H;
      try reflexivity; try discriminate H; try (destruct H as [H|H]; discriminate H);
      try (now left); try (now right).
    unfold isBootsScript in H. simpl in H. unfold and_then in H.
    destruct (truthy (VBool (is_function (assoc "run" fields)))); discriminate H.
  - intros v Hv. unfold isBootsScript in Hv.
    destruct o as [| |b|s|body|fields|]; simpl in Hv; try discriminate Hv;
      try (injection Hv as <-; now left).
    unfold and_then in Hv. simpl in Hv.
    destruct (assoc "run" fields) eqn:Hrun; simpl in Hv;
      try (injection Hv as <-; now left).
    right. split; [|exact Hv].
    unfold run_is_function. simpl. rewrite Hrun. eauto.
Qed.

Section Accounting.

Variable host : Host.
Variable base : string.

Lemma verdict_partition (ids : list string) :
  List.length (accepted_units host base ids)
  + List.length (unresolved host base ids)
  + List.length (misshapen host base ids)
  = List.length ids.
Proof.
  unfold accepted_units, unresolved, misshapen, is_unresolvable, is_wrongShape.
  induction ids as [|id ids IH]; simpl; [reflexivity|].
  rewrite !length_map in *.
  destruct (verdict host base id); simpl; rewrite ?length_app; simpl; lia.
Qed.

Lemma requires_of_length (id : string) :
  1 <= List.length (requires_of host base id) <= 2.
Proof.
  unfold requires_of, load. destruct (require_default host id); simpl; lia.
Qed.

Lemma flat_map_requires_length (ids : list string) :
  List.length ids <= List.length (flat_map (requires_of host base) ids)
  <= 2 * List.length ids.
Proof.
  induction ids as [|id ids IH]; simpl; [lia|].
  rewrite length_app. pose proof (requires_of_length id). lia.
Qed.

End Accounting.

(** X5. The loader accounts for every identifier: each one either adds a
    unit or adds a path to one of the two collections of the report, so the
    units added and the paths recorded are as many as the identifiers; and
    it calls [require] at least once and at most twice for each. *)
Theorem loader_accounts_for_every_identifier (host : Host) (self : Boots)
        (ids : list string) :
  let st := _loadModules host self ids in
  List.length (scripts st)
  + List.length (entries (cantResolve (result st)))
  + List.length (entries (wrongType (result st)))
  = List.length (bootsScripts self) + List.length ids
  /\ List.length ids <= List.length (required st) <= 2 * List.length ids.
Proof.
  intros st. unfold st.
  rewrite loadModules_cantResolve, loadModules_wrongType.
  unfold _loadModules. rewrite fold_loadModule_scripts, fold_loadModule_required.
  simpl. rewrite length_app.
  pose proof (verdict_partition host (baseUrl self) ids).
  pose proof (flat_map_requires_length host (baseUrl self) ids).
  destruct (unresolved host (baseUrl self) ids);
    destruct (misshapen host (baseUrl self) ids); simpl in *; lia.
Qed.

(** ** [go] by the verdicts on its identifiers *)

Lemma loadModules_by_verdicts (host : Host) (self : Boots) (ids : list string) :
  scripts (_loadModules host self ids)
  = bootsScripts self ++ accepted_units host (baseUrl self) ids
  /\ required (_loadModules host self ids) = flat_map (requires_of host (baseUrl self)) ids
  /\ result_ok (result (_loadModules host self ids))
     = forallb (is_accepted host (baseUrl self)) ids.
Proof.
  unfold _loadModules.
  rewrite fold_loadModule_scripts, fold_loadModule_required, fold_loadModule_ok.
  repeat split.
Qed.

Lemma go_by_verdicts (host : Host) (self : Boots) (ids : list string) :
  _loadScriptPaths (argv host) = ids ->
  go host self
  = match ids with
    | [] => (throwError no_paths_message, set_ok (set_scriptPaths self []) false, [])
    | _ =>
        let good := forallb (is_accepted host (baseUrl self)) ids in
        (if good then runScripts else throwError load_failed_message,
         {| scriptPaths := ids;
            bootsScripts := bootsScripts self ++ accepted_units host (baseUrl self) ids;
            baseUrl := baseUrl self;
            errors := errors self
                      ++ (if good then [] else diagnostics host (baseUrl self) ids);
            ok := ok self && good |},
         flat_map (requires_of host (baseUrl self)) ids)
    end.
Proof.
  intros Hids. destruct ids as [|id0 ids'].
  - unfold go. rewrite Hids. reflexivity.
  - cbv iota zeta.
    assert (Hne : _loadScriptPaths (argv host) <> []) by (rewrite Hids; discriminate).
    set (ids := id0 :: ids') in *.
    destruct (loadModules_by_verdicts host self ids) as (Hs & Hr & Hok).
    destruct (forallb (is_accepted host (baseUrl self)) ids) eqn:Hgood.
    + unfold go. rewrite Hids.
      replace (Nat.ltb (List.length (scriptPaths (set_scriptPaths self ids))) 1) with false
        by reflexivity.
      change (_loadModules host (set_scriptPaths self ids)
                (scriptPaths (set_scriptPaths self ids)))
        with (_loadModules host self ids).
      rewrite Hok, Hs, Hr. simpl negb. cbv iota.
      unfold set_bootsScripts, set_scriptPaths.
      cbn [scriptPaths bootsScripts baseUrl errors ok].
      now rewrite app_nil_r, andb_true_r.
    + pose proof (go_report_not_ok host self Hne) as Hgo. cbv zeta in Hgo.
      rewrite Hids in Hgo. rewrite Hgo by (rewrite Hok; reflexivity).
      now rewrite Hs, Hr, andb_false_r.
Qed.

Lemma forallb_accepted_iff (host : Host) (base : string) (ids : list string) :
  forallb (is_accepted host base) ids = true
  <-> forall id, In id ids -> exists u, verdict host base id = Accepted u.
Proof.
  rewrite forallb_forall. unfold is_accepted. split; intros H id Hin.
  - specialize (H id Hin). destruct (verdict host base id); try discriminate H. eauto.
  - destruct (H id Hin) as [u ->]. reflexivity.
Qed.

Lemma go_observable_cases (host : Host) (self : Boots) (ids : list string) :
  _loadScriptPaths (argv host) = ids ->
  (fst (fst (go host self)) = runScripts
   <-> ids <> []
       /\ forall id, In id ids -> exists u, verdict host (baseUrl self) id = Accepted u)
  /\ (fst (fst (go host self)) = runScripts
      \/ (fst (fst (go host self)) = throwError no_paths_message /\ ids = [])
      \/ (fst (fst (go host self)) = throwError load_failed_message /\ ids <> []))
  /\ ok (snd (fst (go host self))) = ok self && is_runScripts (fst (fst (go host self))).
Proof.
  intros Hids. rewrite (go_by_verdicts host self ids Hids).
  rewrite <- forallb_accepted_iff.
  destruct ids as [|id0 ids'].
  - simpl. rewrite andb_false_r.
    split; [split; [discriminate | intros [Hne _]; congruence]|].
    split; [|reflexivity]. right. left. split; reflexivity.
  - cbv zeta iota.
    set (good := forallb (is_accepted host (baseUrl self)) (id0 :: ids')).
    destruct good; cbn [fst snd ok is_runScripts].
    + split; [split; [intros _; split; [discriminate | reflexivity] | reflexivity]|].
      split; [now left | reflexivity].
    + split; [split; [discriminate | intros [_ H]; discriminate H]|].
      split; [|reflexivity]. right. right. split; [reflexivity | discriminate].
Qed.

(** X6. [go] returns the observable that runs the units exactly when the
    scan finds at least one identifier and every identifier ends with a
    unit; otherwise it returns an observable that fails, with one of two
    fixed messages. The [ok] flag afterwards is what it was, and false
    whenever the failing observable is returned. *)
Theorem go_runs_the_units_iff (host : Host) (self : Boots) :
  let ids := _loadScriptPaths (argv host) in
  let o := fst (fst (go host self)) in
  (o = runScripts
   <-> ids <> []
       /\ forall id, In id ids -> exists u, verdict host (baseUrl self) id = Accepted u)
  /\ (o = runScripts
      \/ (o = throwError no_paths_message /\ ids = [])
      \/ (o = throwError load_failed_message /\ ids <> []))
  /\ ok (snd (fst (go host self))) = ok self && is_runScripts o.
Proof.
  intros ids o. exact (go_observable_cases host self ids eq_refl).
Qed.

(** X7. Whatever [go] returns, it leaves on the instance the identifiers
    found, the base directory unchanged, and the units it had followed by
    the units of the identifiers that were accepted, in order: the units
    accepted are stored also when another identifier makes the report
    fail. *)
Theorem go_stores_the_accepted_units (host : Host) (self : Boots) :
  let ids := _loadScriptPaths (argv host) in
  let self' := snd (fst (go host self)) in
  scriptPaths self' = ids
  /\ baseUrl self' = baseUrl self
  /\ bootsScripts self' = bootsScripts self ++ accepted_units host (baseUrl self) ids.
Proof.
  intros ids self'. unfold self'.
  rewrite (go_by_verdicts host self ids eq_refl).
  destruct ids as [|id0 ids']; simpl; [|repeat split].
  rewrite app_nil_r. repeat split.
Qed.

(** ** The chain over any units *)

Lemma fulfilled_prefix_fulfils (us : list Value) :
  Forall2 fulfils (firstn (List.length (fulfilled_prefix us)) us) (fulfilled_prefix us).
Proof.
  induction us as [|u us IH]; simpl; [constructor|].
  destruct (get u "run") as [[| | | |[[r| |]| |]| |]|] eqn:Hrun; simpl; try constructor.
  - exact Hrun.
  - exact IH.
Qed.

Lemma fulfilled_prefix_length (us : list Value) :
  List.length (fulfilled_prefix us) <= List.length us.
Proof.
  induction us as [|u us IH]; simpl; [lia|].
  destruct (get u "run") as [[| | | |[[r| |]| |]| |]|]; simpl; lia.
Qed.

Lemma fulfilled_prefix_all (us rs : list Value) :
  Forall2 fulfils us rs -> fulfilled_prefix us = rs.
Proof.
  induction 1 as [|u r us rs Hu _ IH]; simpl; [reflexivity|].
  unfold fulfils in Hu. rewrite Hu, IH. reflexivity.
Qed.

Lemma fold_reducer_stops (u : Value) (rest : list Value) (sent : list Event)
      (res : list Value) :
  (forall r, ~ fulfils u r) ->
  fold_left reducer (u :: rest) (sent, ChainFulfilled res)
  = (sent ++ fst (turn_at u), snd (turn_at u))
  /\ forall host self,
       Stopped host self u
         (fst (turn_at u) ++ match snd (turn_at u) with
                             | ChainRejected e => final_events host e
                             | _ => []
                             end)
         (match snd (turn_at u) with
          | ChainRejected _ => set_ok self false
          | _ => self
          end).
Proof.
  intros Hnot. unfold turn_at. simpl.
  destruct (get u "run") as [[| | | |[[r| |]| |]| |]|] eqn:Hrun; simpl;
    rewrite ?fold_reducer_rejected, ?fold_reducer_pending, ?app_nil_r;
    try (split; [reflexivity|]; intros host self;
         apply StopNotCallable; intros body Hb; rewrite Hrun in Hb; discriminate Hb).
  - exfalso. exact (Hnot r Hrun).
  - split; [reflexivity|]. intros host self.
    apply (StopFailed host self u e). left. exact Hrun.
  - split; [reflexivity|]. intros host self. apply StopPending. exact Hrun.
  - split; [reflexivity|]. intros host self.
    apply (StopFailed host self u VTypeError). right. right. split; [exact Hrun | reflexivity].
  - split; [reflexivity|]. intros host self.
    apply (StopFailed host self u e). right. left. exact Hrun.
Qed.

Lemma turn_at_not_fulfilled (u : Value) :
  (forall r, ~ fulfils u r) -> forall res, snd (turn_at u) <> ChainFulfilled res.
Proof.
  intros Hnot res. unfold turn_at. simpl.
  destruct (get u "run") as [[| | | |[[r| |]| |]| |]|] eqn:Hrun; simpl; try discriminate.
  exfalso. exact (Hnot r Hrun).
Qed.

Lemma first_after_fulfilled_prefix (us : list Value) (u : Value) :
  nth_error us (List.length (fulfilled_prefix us)) = Some u ->
  forall r, ~ fulfils u r.
Proof.
  induction us as [|v us IH]; simpl; [discriminate|].
  destruct (get v "run") as [[| | | |[[r| |]| |]| |]|] eqn:Hrun; simpl;
    try (intros Hu; injection Hu as <-; intros r' Hr'; unfold fulfils in Hr';
         rewrite Hrun in Hr'; discriminate Hr').
  exact IH.
Qed.

Lemma runScripts_shape (host : Host) (self : Boots) :
  let us := bootsScripts self in
  let rs := fulfilled_prefix us in
  (List.length rs = List.length us
   /\ _runScripts host self = (interleave us rs ++ [Complete], self))
  \/ (exists u tail self',
         nth_error us (List.length rs) = Some u
         /\ Stopped host self u tail self'
         /\ _runScripts host self
            = (interleave (firstn (List.length rs) us) rs ++ tail, self')).
Proof.
  intros us rs.
  pose proof (fulfilled_prefix_fulfils us) as Hpre. fold rs in Hpre.
  pose proof (fulfilled_prefix_length us) as Hlen. fold rs in Hlen.
  unfold _runScripts. fold us.
  replace (fold_left reducer us ([], ChainFulfilled []))
    with (fold_left reducer (firstn (List.length rs) us ++ skipn (List.length rs) us)
            ([], ChainFulfilled []))
    by (now rewrite firstn_skipn).
  rewrite fold_left_app.
  rewrite (fold_reducer_fulfilled _ _ Hpre). simpl app.
  destruct (skipn (List.length rs) us) as [|u rest] eqn:Hskip.
  - left.
    assert (Hall : List.length rs = List.length us).
    { apply (f_equal (@List.length Value)) in Hskip.
      rewrite length_skipn in Hskip. simpl in Hskip. lia. }
    split; [exact Hall|]. simpl.
    rewrite Hall, firstn_all. reflexivity.
  - right.
    assert (Hnth : nth_error us (List.length rs) = Some u).
    { rewrite <- (firstn_skipn (List.length rs) us) at 1.
      rewrite nth_error_app2; rewrite length_firstn, Nat.min_l by exact Hlen; [|lia].
      rewrite Nat.sub_diag, Hskip. reflexivity. }
    pose proof (first_after_fulfilled_prefix us u Hnth) as Hnot.
    destruct (fold_reducer_stops u rest
                (interleave (firstn (List.length rs) us) rs) rs Hnot) as [Hfold Hstop].
    rewrite Hfold. specialize (Hstop host self).
    pose proof (turn_at_not_fulfilled u Hnot) as Hnf.
    destruct (snd (turn_at u)) as [res|e|] eqn:Hchain.
    + exfalso. exact (Hnf res eq_refl).
    + exists u, (fst (turn_at u) ++ final_events host e), (set_ok self false).
      split; [exact Hnth|]. split; [exact Hstop|].
      unfold final_events. destruct (script_error_message host e);
        rewrite <- ?app_assoc, ?app_nil_r; reflexivity.
    + exists u, (fst (turn_at u) ++ []), self.
      split; [exact Hnth|]. split; [exact Hstop|].
      rewrite app_nil_r. reflexivity.
Qed.

Lemma final_events_shape (host : Host) (e : Value) :
  final_events host e = [] \/ exists m, final_events host e = [Error m].
Proof.
  unfold final_events. destruct (script_error_message host e); eauto.
Qed.

Lemma Stopped_facts (host : Host) (self : Boots) (u : Value)
      (tail : list Event) (self' : Boots) :
  Stopped host self u tail self' ->
  emitted tail = []
  /\ (called tail = [u] \/ called tail = [])
  /\ ~ In Complete tail
  /\ ((exists m, In (Error m) tail) -> ok self' = false)
  /\ exists calls term,
       tail = calls ++ term
       /\ forallb (fun ev => negb (is_terminal ev)) calls = true
       /\ (term = [] \/ exists m, term = [Error m]).
Proof.
  intros [Hp|e He|Hn].
  - repeat split; try reflexivity.
    + now left.
    + intros [H|[]]. discriminate H.
    + intros [m [H|[]]]. discriminate H.
    + exists [Called u], []. repeat split. now left.
  - destruct (final_events_shape host e) as [->|[m ->]].
    + repeat split; try reflexivity.
      * now left.
      * intros [H|[]]. discriminate H.
      * exists [Called u], []. repeat split. now left.
    + repeat split; try reflexivity.
      * now left.
      * intros [H|[H|[]]]; discriminate H.
      * exists [Called u], [Error m]. repeat split. right. eauto.
  - destruct (final_events_shape host VTypeError) as [->|[m ->]].
    + repeat split; try reflexivity.
      * now right.
      * intros [].
      * exists [], []. repeat split. now left.
    + repeat split; try reflexivity.
      * now right.
      * intros [H|[]]. discriminate H.
      * exists [], [Error m]. repeat split. right. eauto.
Qed.

Lemma interleave_no_terminal (us rs : list Value) :
  forallb (fun ev => negb (is_terminal ev)) (interleave us rs) = true.
Proof.
  unfold interleave. revert rs. induction us as [|u us IH]; intros [|r rs]; simpl; auto.
Qed.

Lemma interleave_no_event (us rs : list Value) :
  ~ In Complete (interleave us rs) /\ forall m, ~ In (Error m) (interleave us rs).
Proof.
  pose proof (interleave_no_terminal us rs) as H. rewrite forallb_forall in H.
  split; [|intros m]; intros Hin; specialize (H _ Hin); discriminate H.
Qed.

(** X8. Whatever the units are, what a subscriber is sent with [next] is
    the result of each unit in order up to the first unit whose promise is
    not fulfilled, and nothing more. *)
Theorem emitted_is_the_fulfilled_prefix (host : Host) (self : Boots) :
  emitted (fst (_runScripts host self)) = fulfilled_prefix (bootsScripts self)
  /\ Forall2 fulfils
       (firstn (List.length (emitted (fst (_runScripts host self)))) (bootsScripts self))
       (emitted (fst (_runScripts host self))).
Proof.
  assert (H : emitted (fst (_runScripts host self)) = fulfilled_prefix (bootsScripts self)).
  { pose proof (fulfilled_prefix_fulfils (bootsScripts self)) as Hpre.
    destruct (runScripts_shape host self) as [[Hall ->]|(u & tail & self' & _ & Hstop & ->)].
    - simpl. rewrite emitted_app. simpl. rewrite app_nil_r.
      rewrite Hall, firstn_all in Hpre. exact (emitted_interleave _ _ Hpre).
    - simpl. rewrite emitted_app.
      destruct (Stopped_facts _ _ _ _ _ Hstop) as (-> & _).
      rewrite app_nil_r. exact (emitted_interleave _ _ Hpre). }
  rewrite H. split; [reflexivity | apply fulfilled_prefix_fulfils].
Qed.

(** X9. The stream completes exactly when the promise of every unit is
    fulfilled; it then has sent a call and a result for each unit, in
    order, and the instance is as it was. *)
Theorem completes_iff_every_unit_is_fulfilled (host : Host) (self : Boots) :
  (In Complete (fst (_runScripts host self))
   <-> exists rs, Forall2 fulfils (bootsScripts self) rs)
  /\ (forall rs, Forall2 fulfils (bootsScripts self) rs ->
        _runScripts host self = (interleave (bootsScripts self) rs ++ [Complete], self)).
Proof.
  assert (Hall : forall rs, Forall2 fulfils (bootsScripts self) rs ->
            _runScripts host self = (interleave (bootsScripts self) rs ++ [Complete], self)).
  { intros rs Hrs. unfold _runScripts.
    rewrite (fold_reducer_fulfilled _ _ Hrs). reflexivity. }
  split; [split|exact Hall].
  - intros Hin.
    destruct (runScripts_shape host self) as [[Hlen _]|(u & tail & self' & _ & Hstop & Heq)].
    + exists (fulfilled_prefix (bootsScripts self)).
      pose proof (fulfilled_prefix_fulfils (bootsScripts self)) as Hpre.
      now rewrite Hlen, firstn_all in Hpre.
    + exfalso. rewrite Heq in Hin. simpl in Hin. apply in_app_or in Hin.
      destruct Hin as [Hin|Hin].
      * exact (proj1 (interleave_no_event _ _) Hin).
      * destruct (Stopped_facts _ _ _ _ _ Hstop) as (_ & _ & Hno & _). exact (Hno Hin).
  - intros [rs Hrs]. rewrite (Hall rs Hrs). simpl. apply in_or_app. right. now left.
Qed.

Lemma firstn_succ_nth (us : list Value) (n : nat) (u : Value) :
  nth_error us n = Some u -> firstn (S n) us = firstn n us ++ [u].
Proof.
  revert n. induction us as [|v us IH]; intros [|n] H; simpl in *; try discriminate.
  - now injection H as ->.
  - now rewrite (IH n H).
Qed.

(** X10. Whatever the units are, the events of a run have one shape: [run]
    is called on the units in order, from the first, with no unit skipped;
    every result comes after the call of its unit, so the calls are as many
    as the results or one more; and the stream is ended at most once, by a
    completion or an error that nothing follows. *)
Theorem run_has_one_shape (host : Host) (self : Boots) :
  let sent := fst (_runScripts host self) in
  called sent = firstn (List.length (called sent)) (bootsScripts self)
  /\ List.length (emitted sent) <= List.length (called sent)
     <= S (List.length (emitted sent))
  /\ exists body term,
       sent = body ++ term
       /\ forallb (fun ev => negb (is_terminal ev)) body = true
       /\ (term = [] \/ term = [Complete] \/ exists m, term = [Error m]).
Proof.
  intros sent. unfold sent.
  pose proof (fulfilled_prefix_fulfils (bootsScripts self)) as Hpre.
  pose proof (fulfilled_prefix_length (bootsScripts self)) as Hle.
  set (us := bootsScripts self) in *. set (rs := fulfilled_prefix us) in *.
  destruct (runScripts_shape host self) as [[Hall ->]|(u & tail & self' & Hnth & Hstop & ->)];
    fold us in Hall || fold us in Hnth; fold us; fold rs in Hall || fold rs in Hnth; fold rs;
    simpl fst.
  - rewrite Hall, firstn_all in Hpre.
    rewrite called_app, emitted_app.
    rewrite (called_interleave _ _ Hpre), (emitted_interleave _ _ Hpre).
    simpl. rewrite !app_nil_r. split; [now rewrite firstn_all|]. split; [lia|].
    exists (interleave us rs), [Complete].
    split; [reflexivity|]. split; [apply interleave_no_terminal | right; now left].
  - destruct (Stopped_facts _ _ _ _ _ Hstop) as (Hem & Hcalled & _ & _ & calls & term & -> & Hcalls & Hterm).
    rewrite called_app, emitted_app.
    rewrite (called_interleave _ _ Hpre), (emitted_interleave _ _ Hpre), Hem, app_nil_r.
    assert (Hfl : List.length (firstn (List.length rs) us) = List.length rs)
      by (rewrite length_firstn; lia).
    split; [|split].
    + destruct Hcalled as [->| ->].
      * rewrite length_app, Hfl. simpl. rewrite Nat.add_1_r.
        symmetry. exact (firstn_succ_nth us _ u Hnth).
      * rewrite app_nil_r, Hfl. reflexivity.
    + destruct Hcalled as [->| ->]; rewrite length_app, Hfl; simpl; lia.
    + exists (interleave (firstn (List.length rs) us) rs ++ calls), term.
      split; [now rewrite app_assoc|]. split.
      * rewrite forallb_app, interleave_no_terminal, Hcalls. reflexivity.
      * destruct Hterm as [->|[m ->]]; [now left | right; right; eauto].
Qed.

(** X11. A unit whose promise never settles stalls the run: the units
    before it being fulfilled, their calls and results are sent, the unit is
    called, and then nothing is sent, neither a completion nor an error; no
    unit after it is called; the instance stays as it was. *)
Theorem pending_unit_stalls_the_run (host : Host) (self : Boots)
        (pre post rs : list Value) (u : Value) :
  bootsScripts self = pre ++ u :: post ->
  Forall2 fulfils pre rs ->
  get u "run" = Some (VFun (ReturnsPromise Pending)) ->
  _runScripts host self = (interleave pre rs ++ [Called u], self).
Proof.
  intros Hunits Hpre Hu. unfold _runScripts. rewrite Hunits, fold_left_app.
  rewrite (fold_reducer_fulfilled pre rs Hpre). simpl. rewrite Hu.
  rewrite fold_reducer_pending. reflexivity.
Qed.

Lemma pending_unit_stalls_the_run_witness :
  let waiting := BootsScript "waiting" (ReturnsPromise Pending) in
  let self := {| scriptPaths := []; baseUrl := "/app"; errors := []; ok := true;
                 bootsScripts := [Scripts.examples_testScript; waiting;
                                  Scripts.test2Script] |} in
  _runScripts (Sample.host [] []) self
  = ([Called Scripts.examples_testScript;
      Next (VObj [("success", VBool true); ("scriptName", VStr "test-script")]);
      Called waiting],
     self).
Proof.
  apply (pending_unit_stalls_the_run (Sample.host [] [])
           {| scriptPaths := []; baseUrl := "/app"; errors := []; ok := true;
              bootsScripts := [Scripts.examples_testScript;
                               BootsScript "waiting" (ReturnsPromise Pending);
                               Scripts.test2Script] |}
           [Scripts.examples_testScript] [Scripts.test2Script]
           [VObj [("success", VBool true); ("scriptName", VStr "test-script")]]
           (BootsScript "waiting" (ReturnsPromise Pending))).
  - reflexivity.
  - repeat constructor.
  - reflexivity.
Defined.



(** X13. A promise rejected with [undefined] or [null] sets the [ok] flag
    to false and sends no error: the last handler throws while it builds its
    message, so the stream is left without an end. *)
Theorem nullish_rejection_sends_no_error (host : Host) (self : Boots)
        (pre post rs : list Value) (u e : Value) :
  bootsScripts self = pre ++ u :: post ->
  Forall2 fulfils pre rs ->
  rejects u e ->
  e = VUndefined \/ e = VNull ->
  _runScripts host self = (interleave pre rs ++ [Called u], set_ok self false).
Proof.
  intros Hunits Hpre Hu He.
  rewrite (runScripts_first_rejection host self pre post rs u e Hunits Hpre Hu).
  destruct He as [-> | ->]; reflexivity.
Qed.

Lemma nullish_rejection_sends_no_error_witness :
  let silent := BootsScript "silent" (ReturnsPromise (Rejected VUndefined)) in
  let self := {| scriptPaths := []; baseUrl := "/app"; errors := []; ok := true;
                 bootsScripts := [silent] |} in
  _runScripts (Sample.host [] []) self = ([Called silent], set_ok self false).
Proof.
  apply (nullish_rejection_sends_no_error (Sample.host [] [])
           {| scriptPaths := []; baseUrl := "/app"; errors := []; ok := true;
              bootsScripts := [BootsScript "silent" (ReturnsPromise (Rejected VUndefined))] |}
           [] [] []
           (BootsScript "silent" (ReturnsPromise (Rejected VUndefined))) VUndefined).
  - reflexivity.
  - constructor.
  - reflexivity.
  - now left.
Defined.

(** ** The instance across operations *)

Lemma runScripts_state (host : Host) (self : Boots) :
  snd (_runScripts host self) = self \/ snd (_runScripts host self) = set_ok self false.
Proof.
  unfold _runScripts.
  destruct (fold_left reducer (bootsScripts self) ([], ChainFulfilled [])) as [sent chain].
  destruct chain as [res|e|]; simpl; [now left | | now left].
  destruct (script_error_message host e); now right.
Qed.

Lemma go_state (host : Host) (self : Boots) :
  baseUrl (snd (fst (go host self))) = baseUrl self
  /\ (exists more, errors (snd (fst (go host self))) = errors self ++ more
                   /\ List.length more <= 2)
  /\ exists more, bootsScripts (snd (fst (go host self))) = bootsScripts self ++ more.
Proof.
  rewrite (go_by_verdicts host self _ eq_refl).
  destruct (_loadScriptPaths (argv host)) as [|id0 ids'].
  - simpl. split; [reflexivity|]. split; exists []; rewrite app_nil_r; auto.
  - cbv zeta iota. cbn [fst snd baseUrl errors bootsScripts].
    split; [reflexivity|]. split; [|eauto].
    eexists. split; [reflexivity|].
    destruct (forallb _ _); [simpl; lia|].
    unfold diagnostics.
    destruct (unresolved _ _ _); destruct (misshapen _ _ _); simpl; lia.
Qed.

Lemma apply_op_state (host : Host) (self : Boots) (op : Op) :
  baseUrl (apply_op host self op) = baseUrl self
  /\ (exists more, errors (apply_op host self op) = errors self ++ more)
  /\ exists more, bootsScripts (apply_op host self op) = bootsScripts self ++ more.
Proof.
  destruct op as [| |o]; simpl.
  - destruct (go_state host self) as (Hb & (more & He & _) & Hs). eauto.
  - split; [reflexivity|]. split; exists []; now rewrite app_nil_r.
  - assert (H : snd (subscribe host o self) = self
                \/ snd (subscribe host o self) = set_ok self false).
    { destruct o; simpl; [now left | apply runScripts_state]. }
    destruct H as [-> | ->]; simpl;
      (split; [reflexivity|]; split; exists []; now rewrite app_nil_r).
Qed.

(** X14. No operation on an instance removes a stored diagnostic or a
    stored unit, or changes the base directory: after any sequence of
    operations the diagnostics and the units the instance had are still
    there, in front of what was added. One call of [go] adds at most two
    diagnostics. *)
Theorem nothing_stored_is_removed (host : Host) (ops : list Op) (self : Boots) :
  let self' := fold_left (apply_op host) ops self in
  baseUrl self' = baseUrl self
  /\ (exists more, errors self' = errors self ++ more)
  /\ (exists more, bootsScripts self' = bootsScripts self ++ more)
  /\ (exists more, errors (apply_op host self OpGo) = errors self ++ more
                   /\ List.length more <= 2).
Proof.
  intros self'. unfold self'. clear self'.
  assert (H : baseUrl (fold_left (apply_op host) ops self) = baseUrl self
              /\ (exists more, errors (fold_left (apply_op host) ops self)
                               = errors self ++ more)
              /\ exists more, bootsScripts (fold_left (apply_op host) ops self)
                              = bootsScripts self ++ more).
  { revert self. induction ops as [|op ops IH]; intros self; simpl.
    - split; [reflexivity|]. split; exists []; now rewrite app_nil_r.
    - destruct (IH (apply_op host self op)) as (Hb & [me He] & [ms Hs]).
      destruct (apply_op_state host self op) as (Hb' & [me' He'] & [ms' Hs']).
      rewrite Hb, He, Hs, Hb', He', Hs'. split; [reflexivity|].
      split; eexists; rewrite <- app_assoc; reflexivity. }
  destruct H as (Hb & He & Hs). repeat split; try assumption.
  exact (proj1 (proj2 (go_state host self))).
Qed.

Lemma go_subscribe_end (host : Host) (self : Boots) :
  let sent := fst (fst (go_subscribe host self)) in
  let self' := snd (fst (go_subscribe host self)) in
  ((exists m, In (Error m) sent) -> ok self' = false)
  /\ (In Complete sent
      -> ok self' = ok self /\ fst (fst (go host self)) = runScripts).
Proof.
  intros sent self'. unfold sent, self', go_subscribe. clear sent self'.
  destruct (go_observable_cases host self _ eq_refl) as (_ & Hcases & Hok).
  destruct (go host self) as [[o self1] calls]. simpl in Hcases, Hok.
  destruct o as [message|]; simpl in *.
  - rewrite andb_false_r in Hok. split; [intros _; exact Hok|].
    intros [H|[]]. discriminate H.
  - rewrite andb_true_r in Hok.
    destruct (_runScripts host self1) as [sent self2] eqn:Hrun. simpl.
    destruct (runScripts_shape host self1)
      as [[_ Heq]|(u & tail & self3 & _ & Hstop & Heq)];
      rewrite Hrun in Heq; injection Heq as -> ->.
    + split.
      * intros [m Hin]. exfalso. apply in_app_or in Hin. destruct Hin as [Hin|[Hin|[]]].
        -- exact (proj2 (interleave_no_event _ _) m Hin).
        -- discriminate Hin.
      * intros _. split; [exact Hok | reflexivity].
    + destruct (Stopped_facts _ _ _ _ _ Hstop) as (_ & _ & Hno & Herr & _). split.
      * intros [m Hin]. apply Herr. exists m. apply in_app_or in Hin.
        destruct Hin as [Hin|Hin]; [|exact Hin].
        exfalso. exact (proj2 (interleave_no_event _ _) m Hin).
      * intros Hin. exfalso. apply in_app_or in Hin. destruct Hin as [Hin|Hin].
        -- exact (proj1 (interleave_no_event _ _) Hin).
        -- exact (Hno Hin).
Qed.

(** X15. The end of the stream and the [ok] flag agree: when a subscriber
    of what [go] returned is sent an error, the flag is false afterwards;
    when it is sent the completion, the flag is what it was before [go],
    and [go] had returned the observable that runs the units. *)
Theorem stream_end_and_ok_flag (host : Host) (self : Boots) :
  let sent := fst (fst (go_subscribe host self)) in
  let self' := snd (fst (go_subscribe host self)) in
  ((exists m, In (Error m) sent) -> ok self' = false)
  /\ (In Complete sent
      -> ok self' = ok self /\ fst (fst (go host self)) = runScripts).
Proof. exact (go_subscribe_end host self). Qed.

Lemma go_subscribe_all_good (host : Host) (self : Boots)
      (ids : list string) (us all : list Value) :
  _loadScriptPaths (argv host) = ids ->
  ids <> [] ->
  accepted_units host (baseUrl self) ids = us ->
  forallb (is_accepted host (baseUrl self)) ids = true ->
  Forall2 fulfils (bootsScripts self ++ us) all ->
  go_subscribe host self
  = (interleave (bootsScripts self ++ us) all ++ [Complete],
     {| scriptPaths := ids;
        bootsScripts := bootsScripts self ++ us;
        baseUrl := baseUrl self;
        errors := errors self;
        ok := ok self |},
     flat_map (requires_of host (baseUrl self)) ids).
Proof.
  intros Hids Hne Hus Hgood Hall. unfold go_subscribe.
  rewrite (go_by_verdicts host self ids Hids).
  destruct ids as [|id0 ids']; [congruence|].
  cbv zeta iota. rewrite Hgood, Hus, app_nil_r, andb_true_r.
  cbn [subscribe]. unfold _runScripts. cbn [bootsScripts].
  rewrite (fold_reducer_fulfilled _ _ Hall). reflexivity.
Qed.

(** X16. [go] on an instance that has run once loads the units again and
    appends them to the ones it holds: on a fresh instance whose identifiers
    are all accepted and whose units are all fulfilled, a second [go]
    followed by a subscription calls every unit twice, the whole list once
    and then once more. *)
Theorem go_again_runs_the_units_again (host : Host) (options : option BootsOptions)
        (us rs : list Value) :
  let self := new_Boots host options in
  let ids := _loadScriptPaths (argv host) in
  ids <> [] ->
  Forall2 (fun id u => loaded_value host (baseUrl self) id = Some u
                       /\ shape_check_passes u = true) ids us ->
  Forall2 fulfils us rs ->
  let self1 := snd (fst (go_subscribe host self)) in
  bootsScripts self1 = us
  /\ fst (fst (go_subscribe host self1))
     = interleave (us ++ us) (rs ++ rs) ++ [Complete].
Proof.
  intros self ids Hne Hload Hrun self1.
  destruct (all_accepted host (baseUrl self) ids us Hload) as [Hunits Hacc].
  assert (H1 : go_subscribe host self
               = (interleave us rs ++ [Complete],
                  {| scriptPaths := ids; bootsScripts := us; baseUrl := baseUrl self;
                     errors := errors self; ok := ok self |},
                  flat_map (requires_of host (baseUrl self)) ids)).
  { exact (go_subscribe_all_good host self ids us rs eq_refl Hne Hunits Hacc Hrun). }
  unfold self1. rewrite H1. cbn [fst snd bootsScripts]. split; [reflexivity|].
  match goal with
  | |- context [go_subscribe host ?s] =>
      rewrite (go_subscribe_all_good host s ids us (rs ++ rs) eq_refl Hne Hunits Hacc)
  end.
  - reflexivity.
  - cbn [bootsScripts]. apply Forall2_app; assumption.
Qed.

Lemma go_again_runs_the_units_again_witness :
  let t := Scripts.examples_testScript in
  let r := VObj [("success", VBool true); ("scriptName", VStr "test-script")] in
  let host := Sample.host (Sample.node_args ["--boots"; "testScript"])
                [("/app/testScript", Sample.exporting t)] in
  let self1 := snd (fst (go_subscribe host (new_Boots host None))) in
  bootsScripts self1 = [t]
  /\ fst (fst (go_subscribe host self1))
     = [Called t; Next r; Called t; Next r; Complete].
Proof.
  apply (go_again_runs_the_units_again
           (Sample.host (Sample.node_args ["--boots"; "testScript"])
              [("/app/testScript", Sample.exporting Scripts.examples_testScript)])
           None
           [Scripts.examples_testScript]
           [VObj [("success", VBool true); ("scriptName", VStr "test-script")]]).
  - discriminate.
  - repeat constructor.
  - repeat constructor.
Defined.

(** ** The earlier revision *)

Lemma earlier_forEach_arg_tokens (todo : list string) :
  forall (pre acc : list string),
    Earlier.forEach_arg (pre ++ todo) (List.length pre) todo acc
    = acc ++ Earlier.tokens_after_flags todo.
Proof.
  induction todo as [|value todo IH]; intros pre acc; simpl.
  - now rewrite app_nil_r.
  - specialize (IH (pre ++ [value])).
    rewrite <- app_assoc in IH. simpl in IH.
    rewrite length_app in IH. simpl in IH. rewrite Nat.add_1_r in IH.
    rewrite IH.
    destruct (String.eqb value commandlineFlag
              || String.eqb value Earlier.commandlineForceSyncFlag).
    + assert (Hs : scan (List.length (pre ++ value :: todo)) (pre ++ value :: todo)
                     (List.length pre + 1) acc = acc ++ up_to_dash todo).
      { pose proof (scan_up_to_dash todo (pre ++ [value])
                      (List.length (pre ++ value :: todo)) acc) as Hs.
        rewrite <- app_assoc in Hs. simpl in Hs.
        rewrite (length_app pre [value]) in Hs. simpl in Hs.
        apply Hs. rewrite length_app. simpl. lia. }
      rewrite Hs. now rewrite app_assoc.
    + reflexivity.
Qed.

Lemma earlier_tokens_without_force_sync (args : list string) :
  ~ In Earlier.commandlineForceSyncFlag args ->
  Earlier.tokens_after_flags args = tokens_after_flag args.
Proof.
  induction args as [|a rest IH]; intros Hno; simpl; [reflexivity|].
  rewrite IH by (intros Hin; apply Hno; now right).
  destruct (String.eqb_spec a Earlier.commandlineForceSyncFlag) as [->|_].
  - exfalso. apply Hno. now left.
  - now rewrite orb_false_r.
Qed.

Lemma later_tokens_among_earlier (args : list string) (t : string) :
  In t (tokens_after_flag args) -> In t (Earlier.tokens_after_flags args).
Proof.
  induction args as [|a rest IH]; simpl; [tauto|].
  intros Hin. apply in_app_or in Hin. apply in_or_app.
  destruct Hin as [Hin|Hin]; [left | right; now apply IH].
  destruct (String.eqb a commandlineFlag); [exact Hin | destruct Hin].
Qed.

(** X17. The scan of the earlier revision opens a run after [--boots] and
    after [--boots-force-sync] alike. It returns every identifier that the
    later scan returns, and on arguments that do not hold
    [--boots-force-sync] the two scans return the same list. *)
Theorem earlier_scan_knows_two_flags (args : list string) :
  Earlier._loadScriptPaths args = Earlier.tokens_after_flags args
  /\ (forall t, In t (_loadScriptPaths args) -> In t (Earlier._loadScriptPaths args))
  /\ (~ In Earlier.commandlineForceSyncFlag args ->
      Earlier._loadScriptPaths args = _loadScriptPaths args).
Proof.
  assert (He : Earlier._loadScriptPaths args = Earlier.tokens_after_flags args)
    by exact (earlier_forEach_arg_tokens args [] []).
  rewrite He, loadScriptPaths_tokens. split; [reflexivity|]. split.
  - apply later_tokens_among_earlier.
  - apply earlier_tokens_without_force_sync.
Qed.

Lemma entries_push (r : option (list string)) (x : string) :
  entries (push_or_define r x) = entries r ++ [x].
Proof. destruct r; reflexivity. Qed.

Lemma earlier_loadModule_cases (host : Host) (st : Loading) (id : string) :
  required (Earlier.loadModule host st id) = required st ++ [id]
  /\ (forall p, In p (entries (cantResolve (result (Earlier.loadModule host st id))))
                -> In p (entries (cantResolve (result st))) \/ p = id)
  /\ (forall p, In p (entries (wrongType (result (Earlier.loadModule host st id))))
                -> In p (entries (wrongType (result st))) \/ p = id).
Proof.
  unfold Earlier.loadModule.
  destruct (require_default host id) as [v|]; simpl.
  - destruct (isBootsScript v) as [c|]; simpl.
    + destruct (truthy c); simpl; (split; [reflexivity|]); split; intros p Hp; auto.
      rewrite entries_push in Hp. apply in_app_or in Hp.
      destruct Hp as [Hp|[Hp|[]]]; auto.
    + split; [reflexivity|]. split; intros p Hp; auto.
      rewrite entries_push in Hp. apply in_app_or in Hp.
      destruct Hp as [Hp|[Hp|[]]]; auto.
  - split; [reflexivity|]. split; intros p Hp; auto.
    rewrite entries_push in Hp. apply in_app_or in Hp.
    destruct Hp as [Hp|[Hp|[]]]; auto.
Qed.

Lemma earlier_fold_loadModule (host : Host) (ids : list string) :
  forall st,
    let st' := fold_left (Earlier.loadModule host) ids st in
    required st' = required st ++ ids
    /\ (forall p, In p (entries (cantResolve (result st')))
                  -> In p (entries (cantResolve (result st))) \/ In p ids)
    /\ (forall p, In p (entries (wrongType (result st')))
                  -> In p (entries (wrongType (result st))) \/ In p ids).
Proof.
  induction ids as [|id ids IH]; intros st; simpl.
  - rewrite app_nil_r. repeat split; auto.
  - destruct (IH (Earlier.loadModule host st id)) as (Hr & Hc & Hw).
    destruct (earlier_loadModule_cases host st id) as (Hr1 & Hc1 & Hw1).
    split; [|split].
    + rewrite Hr, Hr1, <- app_assoc. reflexivity.
    + intros p Hp. destruct (Hc p Hp) as [H|H]; [|auto].
      destruct (Hc1 p H) as [H'|H']; auto.
    + intros p Hp. destruct (Hw p Hp) as [H|H]; [|auto].
      destruct (Hw1 p H) as [H'|H']; auto.
Qed.

Lemma earlier_loadModule_direct (host : Host) (base : string) (st : Loading) (id : string) :
  require_default host id <> None ->
  Earlier.loadModule host st id = loadModule host base st id.
Proof.
  intros Hdirect. unfold Earlier.loadModule, loadModule, load.
  destruct (require_default host id) as [v|]; [reflexivity | congruence].
Qed.

Lemma earlier_loadModules_direct (host : Host) (self : Boots) (ids : list string) :
  Forall (fun id => require_default host id <> None) ids ->
  Earlier._loadModules host self ids = _loadModules host self ids.
Proof.
  unfold Earlier._loadModules, _loadModules. generalize (loading0 self).
  induction ids as [|id ids IH]; intros st Hall; simpl; [reflexivity|].
  inversion Hall as [|? ? Hid Hrest]; subst.
  rewrite (earlier_loadModule_direct host (baseUrl self) st id Hid).
  now apply IH.
Qed.

(** X18. The loader of the earlier revision calls [require] once for each
    identifier, in order, and what it records in either collection is an
    identifier as it was given. When every identifier loads directly, it
    leaves the same report, units and calls as the later loader. *)
Theorem earlier_loader_records_identifiers (host : Host) (self : Boots)
        (ids : list string) :
  let st := Earlier._loadModules host self ids in
  required st = ids
  /\ (forall p, In p (entries (cantResolve (result st)))
                \/ In p (entries (wrongType (result st))) -> In p ids)
  /\ (Forall (fun id => require_default host id <> None) ids ->
      st = _loadModules host self ids).
Proof.
  intros st. unfold st, Earlier._loadModules.
  destruct (earlier_fold_loadModule host ids (loading0 self)) as (Hr & Hc & Hw).
  split; [exact Hr|]. split.
  - intros p [Hp|Hp]; [destruct (Hc p Hp) as [[]|H] | destruct (Hw p Hp) as [[]|H]];
      exact H.
  - apply earlier_loadModules_direct.
Qed.

(** X19. On arguments without [--boots-force-sync] whose identifiers all
    load directly, [go] of the earlier revision and [go] of the later one
    return the same observable, leave the same instance and make the same
    calls of [require]. *)
Theorem earlier_go_agrees_on_direct_loads (host : Host) (self : Boots) :
  ~ In Earlier.commandlineForceSyncFlag (argv host) ->
  Forall (fun id => require_default host id <> None) (_loadScriptPaths (argv host)) ->
  Earlier.go host self = go host self.
Proof.
  intros Hno Hdirect. unfold Earlier.go, go.
  assert (Hscan : Earlier._loadScriptPaths (argv host) = _loadScriptPaths (argv host)).
  { rewrite loadScriptPaths_tokens.
    rewrite <- (earlier_tokens_without_force_sync (argv host) Hno).
    exact (earlier_forEach_arg_tokens (argv host) [] []). }
  rewrite Hscan.
  change (Earlier._loadModules host (set_scriptPaths self (_loadScriptPaths (argv host)))
            (scriptPaths (set_scriptPaths self (_loadScriptPaths (argv host)))))
    with (Earlier._loadModules host (set_scriptPaths self (_loadScriptPaths (argv host)))
            (_loadScriptPaths (argv host))).
  rewrite (earlier_loadModules_direct host _ _ Hdirect).
  reflexivity.
Qed.

Lemma earlier_go_agrees_on_direct_loads_witness :
  let host := Sample.host (Sample.node_args ["--boots"; "t"; "x"])
                [("t", Sample.exporting Scripts.examples_testScript);
                 ("x", Sample.exporting VNull)] in
  Earlier.go host (new_Boots host None) = go host (new_Boots host None).
Proof.
  apply (earlier_go_agrees_on_direct_loads
           (Sample.host (Sample.node_args ["--boots"; "t"; "x"])
              [("t", Sample.exporting Scripts.examples_testScript);
               ("x", Sample.exporting VNull)])).
  - intros [H|[H|[H|[H|[H|[]]]]]]; discriminate H.
  - repeat constructor; discriminate.
Defined.

(** ** The example program *)

Lemma Stopped_error_message (host : Host) (self : Boots) (u : Value)
      (tail : list Event) (self' : Boots) (m : string) :
  Stopped host self u tail self' ->
  In (Error m) tail ->
  exists e, script_error_message host e = Some m.
Proof.
  assert (Hfinal : forall e, In (Error m) (final_events host e) ->
                             exists e', script_error_message host e' = Some m).
  { intros e Hin. exists e. unfold final_events in Hin.
    destruct (script_error_message host e) as [m'|]; [|destruct Hin].
    destruct Hin as [H|[]]. now injection H as ->. }
  intros [Hp|e He|Hn] Hin.
  - destruct Hin as [H|[]]. discriminate H.
  - destruct Hin as [H|Hin]; [discriminate H | eauto].
  - eauto.
Qed.

Lemma go_subscribe_error_messages (host : Host) (self : Boots) (m : string) :
  In (Error m) (fst (fst (go_subscribe host self))) ->
  m = no_paths_message \/ m = load_failed_message
  \/ exists e, script_error_message host e = Some m.
Proof.
  unfold go_subscribe.
  destruct (go_observable_cases host self _ eq_refl) as (_ & Hcases & _).
  destruct (go host self) as [[o self1] calls]. simpl in Hcases.
  destruct o as [message|]; simpl.
  - intros [H|[]]. injection H as <-.
    destruct Hcases as [H|[[H _]|[H _]]]; [discriminate H | |]; injection H as ->; auto.
  - destruct (_runScripts host self1) as [sent self2] eqn:Hrun. simpl.
    destruct (runScripts_shape host self1)
      as [[_ Heq]|(u & tail & self3 & _ & Hstop & Heq)];
      rewrite Hrun in Heq; injection Heq as -> ->; intros Hin;
      apply in_app_or in Hin; destruct Hin as [Hin|Hin];
      try (exfalso; exact (proj2 (interleave_no_event _ _) m Hin)).
    + destruct Hin as [H|[]]. discriminate H.
    + right. right. exact (Stopped_error_message _ _ _ _ _ m Hstop Hin).
Qed.

Lemma deliver_lines (host : Host) (boots : Boots) (sent : list Event) :
  forall lines,
    ExampleGo.deliver host boots sent = Some lines ->
    forall l, In l lines <->
      exists ev ls,
        In ev sent /\ ExampleGo.handle host boots ev = Some ls /\ In l ls.
Proof.
  induction sent as [|ev sent IH]; intros lines Hd l.
  - injection Hd as <-. split; [intros [] | intros (ev & ls & [] & _)].
  - cbn [ExampleGo.deliver] in Hd.
    destruct (ExampleGo.handle host boots ev) as [here|] eqn:Hev;
      cbn [Js.bind] in Hd; [|discriminate Hd].
    destruct (ExampleGo.deliver host boots sent) as [more|];
      cbn [Js.bind] in Hd; [|discriminate Hd].
    injection Hd as <-. specialize (IH more eq_refl l). split.
    + intros Hin. apply in_app_or in Hin. destruct Hin as [Hin|Hin].
      * exists ev, here. split; [now left | split; assumption].
      * apply IH in Hin. destruct Hin as (ev' & ls & Hin' & Hev' & Hl).
        exists ev', ls. split; [now right | split; assumption].
    + intros (ev' & ls & [<-|Hin'] & Hev' & Hl); apply in_or_app.
      * left. rewrite Hev in Hev'. now injection Hev' as ->.
      * right. apply IH. eauto.
Qed.

Lemma unsuccessful_is_no_error_message (host : Host) (self : Boots) :
  ~ In (Error ExampleGo.unsuccessful_line) (fst (fst (go_subscribe host self))).
Proof.
  intros Hin.
  destruct (go_subscribe_error_messages host self _ Hin) as [H|[H|[e H]]].
  - unfold ExampleGo.unsuccessful_line, no_paths_message in H. discriminate H.
  - unfold ExampleGo.unsuccessful_line, load_failed_message in H. discriminate H.
  - unfold script_error_message in H.
    destruct (get e "scriptName"); simpl in H; [|discriminate H].
    destruct (get e "error"); simpl in H; [|discriminate H].
    unfold ExampleGo.unsuccessful_line in H. discriminate H.
Qed.

(** X20. The example program, whenever none of its handlers throws, never
    writes that the scripts were unsuccessful: its [complete] handler is
    only called with the [ok] flag true. It writes that the scripts were run
    successfully exactly when the stream completes. *)
Theorem example_never_reports_unsuccessful (host : Host) (lines : list ExampleGo.Line) :
  ExampleGo.main host = Some lines ->
  ~ In (ExampleGo.ConsoleError ExampleGo.unsuccessful_line) lines
  /\ (In (ExampleGo.Log ExampleGo.successful_line) lines
      <-> In Complete (fst (fst (go_subscribe host (new_Boots host None))))).
Proof.
  unfold ExampleGo.main. intros Hmain.
  pose proof (go_subscribe_end host (new_Boots host None)) as [_ Hcomplete].
  pose proof (unsuccessful_is_no_error_message host (new_Boots host None)) as Hnot.
  destruct (go_subscribe host (new_Boots host None)) as [[sent boots] calls].
  simpl in *. pose proof (deliver_lines host boots sent lines Hmain) as Hlines.
  assert (Hok : In Complete sent -> ExampleGo.complete boots
                                    = [ExampleGo.Log ExampleGo.successful_line]).
  { intros Hin. destruct (Hcomplete Hin) as [Hok _].
    unfold ExampleGo.complete. now rewrite Hok. }
  split; [|split].
  - intros Hin. apply Hlines in Hin. destruct Hin as (ev & ls & Hev & Hls & Hl).
    destruct ev as [t|r| |m]; cbn [ExampleGo.handle] in Hls.
    + injection Hls as <-. destruct Hl.
    + unfold ExampleGo.next in Hls. destruct (get r "scriptName"); simpl in Hls;
        [|discriminate Hls]. injection Hls as <-. destruct Hl as [H|[]]. discriminate H.
    + rewrite (Hok Hev) in Hls. injection Hls as <-. destruct Hl as [H|[]]. discriminate H.
    + injection Hls as <-. destruct Hl as [H|Hl].
      * injection H as ->. exact (Hnot Hev).
      * apply in_map_iff in Hl. destruct Hl as (x & H & _). discriminate H.
  - intros Hin. apply Hlines in Hin. destruct Hin as (ev & ls & Hev & Hls & Hl).
    destruct ev as [t|r| |m]; cbn [ExampleGo.handle] in Hls.
    + injection Hls as <-. destruct Hl.
    + unfold ExampleGo.next in Hls. destruct (get r "scriptName"); simpl in Hls;
        [|discriminate Hls]. injection Hls as <-. destruct Hl as [H|[]]. discriminate H.
    + exact Hev.
    + injection Hls as <-. destruct Hl as [H|Hl]; [discriminate H|].
      apply in_map_iff in Hl. destruct Hl as (x & H & Hx).
      unfold logErrors in Hx. apply in_map_iff in Hx. destruct Hx as (d & <- & _).
      discriminate H.
  - intros Hin. apply Hlines. exists Complete, [ExampleGo.Log ExampleGo.successful_line].
    split; [exact Hin|]. split; [cbn [ExampleGo.handle]; now rewrite (Hok Hin) | now left].
Qed.

Lemma example_never_reports_unsuccessful_witness :
  let host := Sample.host (Sample.node_args ["--boots"; "testScript"])
                [("/app/testScript", Sample.exporting Scripts.examples_testScript)] in
  ExampleGo.main host
  = Some [ExampleGo.Log "script test-script was successful";
          ExampleGo.Log "Boots Scripts were run successfully"]
  /\ ~ In (ExampleGo.ConsoleError ExampleGo.unsuccessful_line)
          [ExampleGo.Log "script test-script was successful";
           ExampleGo.Log "Boots Scripts were run successfully"].
Proof.
  split; [reflexivity|].
  apply (example_never_reports_unsuccessful
           (Sample.host (Sample.node_args ["--boots"; "testScript"])
              [("/app/testScript", Sample.exporting Scripts.examples_testScript)])).
  reflexivity.
Defined.




(** X22. When [go] fails before any unit is run, the example program writes
    the error it is sent with [console.error] and then one line per stored
    diagnostic: nothing more than the error when no identifier was given
    (that error is not stored as a diagnostic), and the diagnostics of the
    report, each after the text [Boots Error: ], when an identifier was not
    accepted. *)
Theorem example_reports_a_failed_start (host : Host) :
  let ids := _loadScriptPaths (argv host) in
  (ids = [] ->
   ExampleGo.main host = Some [ExampleGo.ConsoleError no_paths_message])
  /\ (ids <> [] ->
      forallb (is_accepted host (cwd host)) ids = false ->
      ExampleGo.main host
      = Some (ExampleGo.ConsoleError load_failed_message
                :: map (fun d => ExampleGo.Log ("Boots Error: " ++ d)%string)
                     (diagnostics host (cwd host) ids))).
Proof.
  intros ids. unfold ExampleGo.main, go_subscribe.
  rewrite (go_by_verdicts host (new_Boots host None) ids eq_refl).
  split.
  - intros ->. reflexivity.
  - intros Hne Hbad. destruct ids as [|id0 ids'] eqn:Hshape; [congruence|].
    cbv zeta iota. cbn [baseUrl new_Boots]. rewrite Hbad.
    cbn [subscribe ExampleGo.deliver ExampleGo.handle Js.bind ExampleGo.error
         logErrors errors app].
    unfold logErrors. cbn [errors new_Boots app].
    rewrite map_map, app_nil_r. reflexivity.
Qed.

Lemma example_reports_a_failed_start_witness :
  let host := Sample.host (Sample.node_args ["--boots"; "nowhere"]) [] in
  ExampleGo.main host
  = Some [ExampleGo.ConsoleError load_failed_message;
          ExampleGo.Log ("Boots Error: " ++ cantResolve_message host ["/app/nowhere"])].
Proof.
  destruct (example_reports_a_failed_start
              (Sample.host (Sample.node_args ["--boots"; "nowhere"]) [])) as [_ H].
  apply H; [discriminate | reflexivity].
Defined.
